(** * AdversarialAttacks: span relocation in the AddSent / AddAny dataset
      generators and the evaluation driver

    Shallow embedding of the Python notebooks
    - [CreateAttackDataset_AddSent.ipynb] (which also carries the AddAny
      generator), and
    - [adversarial_attack_to_roberta.ipynb] (the evaluation loop),
    followed by the properties of the reading-comprehension corpus that
    the generators are expected to maintain.

    Python [str] values are modelled by [string]; one [ascii] stands for one
    code point (code points below 256).  JSON integers are [Z].  The answer
    lists of the loaded corpus live in an explicit store, because
    [dict.copy()] is a shallow copy and the generators write through it. *)

From Stdlib Require Import ZArith Lia Ascii String List Bool.
From stdpp Require Import base tactics option list strings.


(** ** Python string primitives *)

Module PyStr.

(** [s.startswith(sub)]. *)
Definition startswith (s sub : string) : bool := String.prefix sub s.

(** [s.find(sub)]: the lowest index at which [sub] occurs in [s];
    [None] stands for Python's [-1]. *)
Fixpoint find (s sub : string) : option nat :=
  if startswith s sub then Some 0
  else match s with
       | EmptyString => None
       | String _ s' => option_map S (find s' sub)
       end.

(** [sub in s]. *)
Definition contains (s sub : string) : bool :=
  match find s sub with Some _ => true | None => false end.

(** Clamping of one slice bound, as [PySlice_AdjustIndices] does for a
    step of 1: a negative bound counts from the end, and everything is
    clamped into [0 .. len]. *)
Definition adjust (len : nat) (i : Z) : nat :=
  if (i <? 0)%Z
  then Z.to_nat (Z.max 0 (i + Z.of_nat len))
  else Nat.min (Z.to_nat i) len.

(** [s[i:j]]. *)
Definition slice (s : string) (i j : Z) : string :=
  let len := String.length s in
  let lo := adjust len i in
  let hi := adjust len j in
  String.substring lo (hi - lo) s.

(** [s[:n]] for a non-negative literal [n]. *)
Definition slice_to (s : string) (n : nat) : string :=
  slice s 0%Z (Z.of_nat n).

(** [str.lower()] on one code point below 256: the ASCII capitals and the
    Latin-1 capitals (U+00C0 .. U+00DE without the multiplication sign
    U+00D7) move up by 32, everything else is left alone. *)
Definition lower_char (c : ascii) : ascii :=
  let n := nat_of_ascii c in
  if ((65 <=? n) && (n <=? 90)) || ((192 <=? n) && (n <=? 222) && negb (n =? 215))
  then ascii_of_nat (n + 32)
  else c.

(** [s.lower()]. *)
Fixpoint lower (s : string) : string :=
  match s with
  | EmptyString => EmptyString
  | String c s' => String (lower_char c) (lower s')
  end.

(** [" ".join(xs)]. *)
Fixpoint join (sep : string) (xs : list string) : string :=
  match xs with
  | [] => ""
  | [x] => x
  | x :: rest => x +:+ sep +:+ join sep rest
  end.

End PyStr.

(** ** Exceptions and results *)

(** The built-in exceptions the notebooks can raise: [random.choice] on an
    empty sequence raises [IndexError], [str.index] on a missing substring
    raises [ValueError]. *)
Inductive exn : Type := IndexError | ValueError.

(** [type(e).__name__]. *)
Definition exn_name (e : exn) : string :=
  match e with
  | IndexError => "IndexError"
  | ValueError => "ValueError"
  end.

Inductive result (A : Type) : Type :=
| Ok (a : A)
| Raise (e : exn).
Arguments Ok {A} a.
Arguments Raise {A} e.

(** ** Corpus model

    The SQuAD hierarchy.  The records are parametric in what the ["answers"]
    key of a question holds: the answer list itself in a JSON file
    ([list Answer]), or the address of the list object once the file is
    loaded ([loc]). *)

Record Answer : Type := mkAnswer { text : string; answer_start : Z }.

Record QA (R : Type) : Type := mkQA {
  question : string;
  id : option string;
  is_impossible : option bool;
  answers : R
}.
Arguments mkQA {R}.
Arguments question {R}.
Arguments id {R}.
Arguments is_impossible {R}.
Arguments answers {R}.

Record Paragraph (R : Type) : Type := mkParagraph {
  context : string;
  qas : list (QA R)
}.
Arguments mkParagraph {R}.
Arguments context {R}.
Arguments qas {R}.

Record Article (R : Type) : Type := mkArticle {
  title : string;
  paragraphs : list (Paragraph R)
}.
Arguments mkArticle {R}.
Arguments title {R}.
Arguments paragraphs {R}.

Record Corpus (R : Type) : Type := mkCorpus {
  version : string;
  data : list (Article R)
}.
Arguments mkCorpus {R}.
Arguments version {R}.
Arguments data {R}.

(** A corpus as it is written in a JSON file. *)
Abbreviation QAPair := (QA (list Answer)).
Abbreviation JParagraph := (Paragraph (list Answer)).
Abbreviation JArticle := (Article (list Answer)).
Abbreviation JCorpus := (Corpus (list Answer)).

(** ** Interpreter state: the store of answer lists and the random source

    After [json.load] every ["answers"] list is an object of its own.
    [qa.copy()] builds a new dict whose ["answers"] entry is the same list
    object, so the list (and the answer dicts in it) is reachable from the
    loaded corpus and from the corpus under construction alike.  Nothing else
    is written after it became shared, so only these lists are kept in the
    store; a [loc] is an index into it.

    The module-level generator of [random] is a stream of raw draws; a draw
    below [n] is the next raw value modulo [n], and a stream that has run
    out keeps drawing 0. *)

Definition loc := nat.

Record state : Type := mkState {
  heap : list (list Answer);
  rng : list nat
}.

(** State-and-exception monad over a state type [S]. *)
Definition SM (S A : Type) : Type := S -> result (A * S).

(** Computations that only draw random numbers, and computations of the
    notebooks in general. *)
Definition Rand (A : Type) : Type := SM (list nat) A.
Definition M (A : Type) : Type := SM state A.

Definition ret {S A} (a : A) : SM S A := fun st => Ok (a, st).

Definition bind {S A B} (c : SM S A) (k : A -> SM S B) : SM S B :=
  fun st => match c st with
            | Ok (a, st') => k a st'
            | Raise e => Raise e
            end.

Definition raise {S A} (e : exn) : SM S A := fun _ => Raise e.

Notation "'let*' x ':=' c 'in' k" := (bind c (fun x => k))
  (at level 10, x name, c at level 100, k at level 200).

Definition lift_rand {A} (c : Rand A) : M A :=
  fun st => match c (rng st) with
            | Ok (a, g) => Ok (a, mkState (heap st) g)
            | Raise e => Raise e
            end.

(** Allocation of a new list object. *)
Definition alloc (v : list Answer) : M loc :=
  fun st => Ok (length (heap st), mkState (heap st ++ [v]) (rng st)).

(** Reading the list object at [l]. *)
Definition load (l : loc) : M (list Answer) :=
  fun st => Ok (default [] (heap st !! l), st).

(** Overwriting the list object at [l]. *)
Definition store (l : loc) (v : list Answer) : M unit :=
  fun st => Ok (tt, mkState (<[l := v]> (heap st)) (rng st)).

(** [random.Random._randbelow(n)] for [n > 0]. *)
Definition randbelow (n : nat) : Rand nat :=
  fun g => match g with
           | [] => Ok (0, [])
           | r :: g' => Ok (r mod n, g')
           end.

(** [random.choice(seq)]. *)
Definition random_choice {A} (seq : list A) : Rand A :=
  fun g => match seq with
           | [] => Raise IndexError
           | _ :: _ =>
               match randbelow (length seq) g with
               | Ok (i, g') =>
                   match seq !! i with
                   | Some x => Ok (x, g')
                   | None => Raise IndexError
                   end
               | Raise e => Raise e
               end
           end.

(** [for x in xs: acc.append(body(x))], the shape of every loop of the
    generators. *)
Fixpoint for_each {A B} (body : A -> M B) (xs : list A) (acc : list B)
  : M (list B) :=
  match xs with
  | [] => ret acc
  | x :: rest => let* y := body x in for_each body rest (acc ++ [y])
  end.

(** ** [json.load] and [json.dump] *)

Module Json.

Definition load_qa (qa : QAPair) : M (QA loc) :=
  let* l := alloc (answers qa) in
  ret (mkQA (question qa) (id qa) (is_impossible qa) l).

Definition load_paragraph (p : JParagraph) : M (Paragraph loc) :=
  let* qs := for_each load_qa (qas p) [] in
  ret (mkParagraph (context p) qs).

Definition load_article (a : JArticle) : M (Article loc) :=
  let* ps := for_each load_paragraph (paragraphs a) [] in
  ret (mkArticle (title a) ps).

Definition load (c : JCorpus) : M (Corpus loc) :=
  let* arts := for_each load_article (data c) [] in
  ret (mkCorpus (version c) arts).

Definition dump_qa (h : list (list Answer)) (qa : QA loc) : QAPair :=
  mkQA (question qa) (id qa) (is_impossible qa)
       (default [] (h !! answers qa)).

Definition dump_paragraph (h : list (list Answer)) (p : Paragraph loc)
  : JParagraph :=
  mkParagraph (context p) (map (dump_qa h) (qas p)).

Definition dump_article (h : list (list Answer)) (a : Article loc)
  : JArticle :=
  mkArticle (title a) (map (dump_paragraph h) (paragraphs a)).

Definition dump_corpus (h : list (list Answer)) (c : Corpus loc) : JCorpus :=
  mkCorpus (version c) (map (dump_article h) (data c)).

(** [json.dump(obj, f)]: the text written is the value reachable from
    [obj] in the current store. *)
Definition dump (c : Corpus loc) : M JCorpus :=
  fun st => Ok (dump_corpus (heap st) c, st).

End Json.

(** ** The answer-offset loop

    Body of [for qa in paragraph['qas']], the same text in both generator
    notebooks. *)

Definition relocate_qa (adv_context : string) (qa : QA loc) : M (QA loc) :=
  (* new_qa = qa.copy() *)
  let new_qa := mkQA (question qa) (id qa) (is_impossible qa) (answers qa) in
  let* lst := load (answers new_qa) in
  match lst with
  | [] => ret new_qa
  | a0 :: others =>
      (* answer = new_qa['answers'][0]['text'] *)
      let answer := text a0 in
      (* answer_start = adv_context.index(answer) *)
      match PyStr.find adv_context answer with
      | None => raise ValueError
      | Some answer_start =>
          (* new_qa['answers'][0]['answer_start'] = answer_start *)
          let* _ := store (answers new_qa)
                      (mkAnswer (text a0) (Z.of_nat answer_start) :: others) in
          ret new_qa
      end
  end.

Definition relocate_qas (adv_context : string) (qas : list (QA loc))
  : M (list (QA loc)) :=
  for_each (relocate_qa adv_context) qas [].

(** ** AddAny generator *)

Module AddAny.

Definition arbitrary_sentences : list string :=
  [ "The weather was unusually warm that day.";
    "A new study shows that coffee might be good for your health.";
    "Scientists have discovered a new species of butterfly.";
    "The local museum is hosting a special exhibition next month.";
    "Recent advancements in technology have revolutionized communication.";
    "A group of researchers published a groundbreaking paper last week.";
    "The city council approved a new urban development plan.";
    "Experts predict significant changes in the job market over the next decade.";
    "A rare astronomical event will be visible in the night sky this weekend.";
    "The national park announced the birth of an endangered species.";
    "The restaurant introduced a new menu featuring exotic dishes.";
    "A famous actor announced his retirement from the film industry.";
    "The university is offering a new course on sustainable energy.";
    "A historic building in the city center was recently renovated.";
    "The annual music festival attracted thousands of visitors.";
    "New research suggests that meditation can improve mental health.";
    "The government launched a campaign to promote recycling.";
    "A local artist unveiled a new sculpture in the town square.";
    "Scientists are exploring the potential of renewable energy sources.";
    "The community center is organizing free workshops for residents.";
    "A groundbreaking ceremony was held for the new hospital wing.";
    "The library extended its hours to accommodate more visitors.";
    "A new bakery opened downtown, specializing in gluten-free pastries.";
    "The zoo welcomed a pair of rare pandas from China.";
    "An ancient manuscript was discovered in a remote monastery.";
    "The local theater is staging a production of Shakespeare's Hamlet.";
    "A tech company unveiled its latest smartphone model.";
    "Volunteers cleaned up the beach as part of an environmental initiative.";
    "A record-breaking heatwave hit the region last summer.";
    "A charity event raised funds for children's education.";
    "The city hosted an international conference on climate change.";
    "A famous chef published a cookbook filled with healthy recipes.";
    "The high school celebrated its centennial anniversary.";
    "A new bike-sharing program was launched in the city.";
    "The botanical garden is hosting a series of gardening workshops.";
    "A local author released a bestselling novel this month.";
    "The national museum opened a new exhibit on ancient Egypt.";
    "A renowned pianist performed at the concert hall last night.";
    "The wildlife reserve is home to several endangered species.";
    "A startup developed an app to help people with disabilities.";
    "The mayor announced plans for a new public transportation system.";
    "A research team found evidence of water on Mars.";
    "The sports team won their championship game in an exciting finish.";
    "A documentary film about climate change received critical acclaim.";
    "The community garden is flourishing thanks to volunteer efforts.";
    "An art gallery displayed works by local artists this weekend.";
    "A historic shipwreck was discovered off the coast.";
    "The orchestra played a symphony by Beethoven to a full house.";
    "A medical breakthrough offers new hope for cancer patients.";
    "The high-speed train service reduced travel time significantly.";
    "A new law was passed to protect endangered wildlife.";
    "The festival featured performances by international musicians.";
    "A children's book was released, inspiring young readers worldwide.";
    "The local market offers a wide variety of organic produce.";
    "A new fitness center opened with state-of-the-art equipment.";
    "The weather forecast predicts heavy snowfall this weekend.";
    "A unique art installation was set up in the city park.";
    "The historic district is known for its beautiful architecture.";
    "A charity organization provided aid to disaster-stricken areas.";
    "The library hosted a reading event for children.";
    "A new app helps users track their carbon footprint.";
    "The film festival showcased independent films from around the world.";
    "A wildlife photographer captured stunning images of a rare bird.";
    "The city introduced a new policy to reduce air pollution.";
    "A culinary school offered classes on international cuisine.";
    "The marathon attracted runners from various countries.";
    "A science fair exhibited innovative projects by students.";
    "The book club discussed a popular novel at their latest meeting.";
    "A new vaccine was developed to combat a viral outbreak.";
    "The theater group performed a modern adaptation of a classic play.";
    "A local band released their debut album to positive reviews.";
    "The national park is a popular destination for hikers and campers.";
    "A new technology aims to make solar energy more efficient.";
    "The charity marathon raised funds for cancer research.";
    "A famous artist donated a painting to the local museum.";
    "The farmers' market features fresh produce from local farms.";
    "A science experiment revealed surprising results about plant growth.";
    "The community center offers after-school programs for children.";
    "A new species of fish was discovered in the deep sea.";
    "The hiking trail offers breathtaking views of the mountains.";
    "A robotics competition challenged students to design innovative robots.";
    "The town square was decorated for the holiday season.";
    "A history professor gave a lecture on ancient civilizations.";
    "The aquarium added a new exhibit featuring marine life from the Arctic.";
    "A famous author gave a talk at the local bookstore.";
    "The cycling race covered challenging terrain and scenic routes.";
    "A local brewery released a new craft beer this month.";
    "The annual fair featured rides, games, and food stalls.";
    "A renewable energy project aims to power the entire community.";
    "The local symphony orchestra played a concert under the stars.";
    "A wildlife documentary highlighted the plight of endangered species." ].

Definition generate_arbitrary_sentence : M string :=
  lift_rand (random_choice arbitrary_sentences).

(** [[generate_arbitrary_sentence() for _ in range(n)]]. *)
Fixpoint generate_sentences (n : nat) : M (list string) :=
  match n with
  | O => ret []
  | S n' =>
      let* s := generate_arbitrary_sentence in
      let* rest := generate_sentences n' in
      ret (s :: rest)
  end.

Definition process_paragraph (num_sentences : nat) (paragraph : Paragraph loc)
  : M (Paragraph loc) :=
  let context := context paragraph in
  let* arbitrary_sentences := generate_sentences num_sentences in
  let adv_context := context +:+ " " +:+ PyStr.join " " arbitrary_sentences in
  let* new_qas := relocate_qas adv_context (qas paragraph) in
  ret (mkParagraph adv_context new_qas).

Definition process_article (num_sentences : nat) (article : Article loc)
  : M (Article loc) :=
  let* new_paragraphs :=
    for_each (process_paragraph num_sentences) (paragraphs article) [] in
  ret (mkArticle (title article) new_paragraphs).

(** The two nested loops of [process_squad_file], on the loaded corpus. *)
Definition transform (num_sentences : nat) (loaded : Corpus loc)
  : M (Corpus loc) :=
  let* new_articles :=
    for_each (process_article num_sentences) (data loaded) [] in
  ret (mkCorpus "v2.0" new_articles).

(** [process_squad_file(input_file, output_file, num_sentences)]:
    [input] is the content of the input file, [seed] the state of the
    random generator; the result is the content written to the output
    file. *)
Definition process_squad_file (input : JCorpus) (num_sentences : nat)
    (seed : list nat) : result JCorpus :=
  match (let* data := Json.load input in
         let* new_data := transform num_sentences data in
         Json.dump new_data) (mkState [] seed) with
  | Ok (out, _) => Ok out
  | Raise e => Raise e
  end.

(** The value of the local [data] when [json.dump] is reached. *)
Definition data_after (input : JCorpus) (num_sentences : nat)
    (seed : list nat) : result JCorpus :=
  match (let* data := Json.load input in
         let* _ := transform num_sentences data in
         Json.dump data) (mkState [] seed) with
  | Ok (out, _) => Ok out
  | Raise e => Raise e
  end.



(** The call of the notebook:
    [process_squad_file(input_file, output_file, num_sentences=2)]. *)
Definition main (input : JCorpus) (seed : list nat) : result JCorpus :=
  process_squad_file input 2 seed.

End AddAny.

(** ** AddSent generator *)

Module AddSent.

(** What the generator reads of a spaCy token: [token.text] and the coarse
    part-of-speech tag [token.pos_]. *)
Record Token : Type := mkToken { tok_text : string; pos_ : string }.

(** Python truth value of a [str]. *)
Definition nonempty (s : string) : bool :=
  match s with EmptyString => false | String _ _ => true end.

Section WithTagger.

(** The spaCy pipeline [nlp], an external collaborator. *)
Variable nlp : string -> list Token.

(** The [key_words] of a question, after the fallback. *)
Definition key_words (question : string) : list string :=
  let doc := nlp question in
  let key_words :=
    map tok_text
        (List.filter
           (fun token =>
              existsb (String.eqb (pos_ token)) ["NOUN"; "VERB"; "ADJ"])
           doc) in
  match key_words with
  | [] =>
      map tok_text
          (List.filter
             (fun token => negb (String.eqb (pos_ token) "PUNCT")) doc)
  | _ :: _ => key_words
  end.

Definition generate_adversarial_sentence (qas : list (QA loc)) : M string :=
  let* qa := lift_rand (random_choice qas) in
  let question := question qa in
  let* lst := load (answers qa) in
  let answer := match lst with [] => "" | a0 :: _ => text a0 end in
  let key_words := key_words question in
  if nonempty answer then
    let* w := lift_rand (random_choice key_words) in
    ret ("However, " +:+ w +:+ " is not related to " +:+ answer +:+ ".")
  else
    let* w := lift_rand (random_choice key_words) in
    ret ("However, " +:+ w +:+ " is not relevant to this context.").

Definition process_paragraph (paragraph : Paragraph loc)
  : M (Paragraph loc) :=
  let context := context paragraph in
  let* adv_sentence := generate_adversarial_sentence (qas paragraph) in
  let adv_context := context +:+ " " +:+ adv_sentence in
  let* new_qas := relocate_qas adv_context (qas paragraph) in
  ret (mkParagraph adv_context new_qas).

Definition process_article (article : Article loc) : M (Article loc) :=
  let* new_paragraphs :=
    for_each process_paragraph (paragraphs article) [] in
  ret (mkArticle (title article) new_paragraphs).

Definition transform (loaded : Corpus loc) : M (Corpus loc) :=
  let* new_articles := for_each process_article (data loaded) [] in
  ret (mkCorpus "v2.0" new_articles).

(** [process_squad_file(input_file, output_file)]. *)
Definition process_squad_file (input : JCorpus) (seed : list nat)
  : result JCorpus :=
  match (let* data := Json.load input in
         let* new_data := transform data in
         Json.dump new_data) (mkState [] seed) with
  | Ok (out, _) => Ok out
  | Raise e => Raise e
  end.

(** The value of the local [data] when [json.dump] is reached. *)
Definition data_after (input : JCorpus) (seed : list nat)
  : result JCorpus :=
  match (let* data := Json.load input in
         let* _ := transform data in
         Json.dump data) (mkState [] seed) with
  | Ok (out, _) => Ok out
  | Raise e => Raise e
  end.

End WithTagger.

End AddSent.

(** ** Evaluation driver *)

Module Evaluate.

Section WithCollaborators.

(** Python [float]. *)
Variable float : Type.
(** The model behind [get_answer] and the metric helpers are external
    collaborators. *)
Variable get_answer : string -> string -> string.
Variable calculate_f1_score : string -> string -> float.
Variable calculate_bleu_score : string -> string -> float.
Variable count_grammatical_errors : string -> Z.

Record Row : Type := mkRow {
  row_attack : string;
  row_question : string;
  row_context : string;
  row_ground_truth : string;
  row_predicted_answer : string;
  row_exact_match : bool;
  row_f1_score : float;
  row_bleu_score : float;
  row_grammatical_errors : Z
}.

(** Body of [for qa in paragraph['qas']]. *)
Definition eval_qa (attack_name context : string) (results : list Row)
    (qa : QAPair) : list Row :=
  let question := question qa in
  match answers qa with
  | [] => results
  | a0 :: _ =>
      let ground_truth := text a0 in
      let predicted_answer := get_answer question context in
      if negb (PyStr.contains (PyStr.slice_to context 512) ground_truth)
      then results
      else
        let exact_match :=
          String.eqb (PyStr.lower predicted_answer)
                     (PyStr.lower ground_truth) in
        let f1_score := calculate_f1_score predicted_answer ground_truth in
        let bleu_score :=
          calculate_bleu_score predicted_answer ground_truth in
        let grammatical_errors :=
          count_grammatical_errors predicted_answer in
        results ++ [ mkRow attack_name question
                           (PyStr.slice_to context 512)
                           ground_truth predicted_answer exact_match
                           f1_score bleu_score grammatical_errors ]
  end.

Definition eval_paragraph (attack_name : string) (results : list Row)
    (paragraph : JParagraph) : list Row :=
  let context := context paragraph in
  fold_left (eval_qa attack_name context) (qas paragraph) results.

Definition eval_article (attack_name : string) (results : list Row)
    (article : JArticle) : list Row :=
  fold_left (eval_paragraph attack_name) (paragraphs article) results.

Definition evaluate_attack (data : list JArticle) (attack_name : string)
  : list Row :=
  fold_left (eval_article attack_name) data [].

End WithCollaborators.

End Evaluate.

(** ** Test corpora *)

Definition paris : JCorpus :=
  mkCorpus "v2.0"
    [ mkArticle "France"
        [ mkParagraph "Paris is the capital of France."
            [ mkQA "What is the capital of France?" (Some "q1") (Some false)
                   [ mkAnswer "Paris" 0 ] ] ] ].

Definition sky : JCorpus :=
  mkCorpus "v2.0"
    [ mkArticle "Sky"
        [ mkParagraph "The sky is blue."
            [ mkQA "What color is the sky?" (Some "q2") (Some false)
                   [ mkAnswer "blue" 11 ] ] ] ].

(** A paragraph whose answer is labelled at the second occurrence of its
    text, and a question without answers. *)
Definition this_is : JCorpus :=
  mkCorpus "v2.0"
    [ mkArticle "Test"
        [ mkParagraph "This is a test."
            [ mkQA "What is this?" (Some "q3") (Some false)
                   [ mkAnswer "is" 5 ];
              mkQA "Why?" (Some "q4") (Some true) [] ] ] ].


(** A tagger given by a table; unknown sentences have no tokens. *)
Definition table_nlp (s : string) : list AddSent.Token :=
  if String.eqb s "What color is the sky?" then
    [ AddSent.mkToken "What" "PRON"; AddSent.mkToken "color" "NOUN";
      AddSent.mkToken "is" "AUX"; AddSent.mkToken "the" "DET";
      AddSent.mkToken "sky" "NOUN"; AddSent.mkToken "?" "PUNCT" ]
  else if String.eqb s "What is this?" then
    [ AddSent.mkToken "What" "PRON"; AddSent.mkToken "is" "AUX";
      AddSent.mkToken "this" "PRON"; AddSent.mkToken "?" "PUNCT" ]
  else if String.eqb s "?" then
    [ AddSent.mkToken "?" "PUNCT" ]
  else [].

(** ** The generators on corpus values

    What the generators compute when the store is left out: the functions
    below work on the corpus as a value and thread the random source only.
    They are related to the notebooks' code in the properties part. *)

Module Pure.

Fixpoint map_rand {A B} (f : A -> Rand B) (xs : list A) : Rand (list B) :=
  match xs with
  | [] => ret []
  | x :: rest =>
      let* y := f x in
      let* ys := map_rand f rest in
      ret (y :: ys)
  end.

Definition of_result {A} (r : result A) : Rand A :=
  fun g => match r with Ok a => Ok (a, g) | Raise e => Raise e end.

(** One question with the offset of its first answer recomputed. *)
Definition relocate (adv_context : string) (qa : QAPair) : result QAPair :=
  match answers qa with
  | [] => Ok qa
  | a0 :: others =>
      match PyStr.find adv_context (text a0) with
      | None => Raise ValueError
      | Some i =>
          Ok (mkQA (question qa) (id qa) (is_impossible qa)
                   (mkAnswer (text a0) (Z.of_nat i) :: others))
      end
  end.

Definition relocate_all (adv_context : string) (qas : list QAPair)
  : Rand (list QAPair) :=
  map_rand (fun qa => of_result (relocate adv_context qa)) qas.

Definition run {A} (c : Rand A) (seed : list nat) : result A :=
  match c seed with Ok (a, _) => Ok a | Raise e => Raise e end.

Module AddAny.

Fixpoint sentences (n : nat) : Rand (list string) :=
  match n with
  | O => ret []
  | S n' =>
      let* s := random_choice AddAny.arbitrary_sentences in
      let* rest := sentences n' in
      ret (s :: rest)
  end.

Definition adv_context (p : JParagraph) (ss : list string) : string :=
  context p +:+ " " +:+ PyStr.join " " ss.

Definition paragraph (num : nat) (p : JParagraph) : Rand JParagraph :=
  let* ss := sentences num in
  let* new_qas := relocate_all (adv_context p ss) (qas p) in
  ret (mkParagraph (adv_context p ss) new_qas).

Definition article (num : nat) (a : JArticle) : Rand JArticle :=
  let* ps := map_rand (paragraph num) (paragraphs a) in
  ret (mkArticle (title a) ps).

Definition corpus (num : nat) (c : JCorpus) : Rand JCorpus :=
  let* arts := map_rand (article num) (data c) in
  ret (mkCorpus "v2.0" arts).

End AddAny.

Module AddSent.
Section WithTagger.
Variable nlp : string -> list AddSent.Token.

Definition first_text (qa : QAPair) : string :=
  match answers qa with [] => "" | a0 :: _ => text a0 end.

Definition sentence_of (qa : QAPair) (w : string) : string :=
  if AddSent.nonempty (first_text qa)
  then "However, " +:+ w +:+ " is not related to " +:+ first_text qa +:+ "."
  else "However, " +:+ w +:+ " is not relevant to this context.".

Definition sentence (qas : list QAPair) : Rand string :=
  let* qa := random_choice qas in
  let* w := random_choice (AddSent.key_words nlp (question qa)) in
  ret (sentence_of qa w).

Definition adv_context (p : JParagraph) (s : string) : string :=
  context p +:+ " " +:+ s.

Definition paragraph (p : JParagraph) : Rand JParagraph :=
  let* s := sentence (qas p) in
  let* new_qas := relocate_all (adv_context p s) (qas p) in
  ret (mkParagraph (adv_context p s) new_qas).

Definition article (a : JArticle) : Rand JArticle :=
  let* ps := map_rand paragraph (paragraphs a) in
  ret (mkArticle (title a) ps).

Definition corpus (c : JCorpus) : Rand JCorpus :=
  let* arts := map_rand article (data c) in
  ret (mkCorpus "v2.0" arts).

End WithTagger.
End AddSent.

End Pure.

(** ** Reachable list objects *)

Definition locs_qa {R} (qa : QA R) : list R := [answers qa].
Definition locs_paragraph {R} (p : Paragraph R) : list R :=
  concat (map locs_qa (qas p)).
Definition locs_article {R} (a : Article R) : list R :=
  concat (map locs_paragraph (paragraphs a)).
Definition locs_corpus {R} (c : Corpus R) : list R :=
  concat (map locs_article (data c)).

(** The store [h'] agrees with [h] outside the addresses [X]. *)
Definition frame (X : list loc) (h h' : list (list Answer)) : Prop :=
  forall l : loc, l ∉ X -> h' !! l = h !! l.

(** A reading [d] of objects in the store depends only on the list objects
    [fp] says are reachable. *)
Definition stable {X Y : Type} (fp : X -> list loc)
    (d : list (list Answer) -> X -> Y) : Prop :=
  forall h h' x, (forall l : loc, l ∈ fp x -> h' !! l = h !! l) -> d h' x = d h x.

(** The computation [body] on stored objects does what [f] does on their
    values: same exception or same value and random source, the result
    reaching the same list objects, nothing else written. *)
Definition simulates {O V O' V' : Type}
    (fp : O -> list loc) (d : list (list Answer) -> O -> V)
    (fp' : O' -> list loc) (d' : list (list Answer) -> O' -> V')
    (body : O -> M O') (f : V -> Rand V') : Prop :=
  forall o h g, NoDup (fp o) ->
    match f (d h o) g with
    | Raise e => body o (mkState h g) = Raise e
    | Ok (v', g') =>
        exists o' h', body o (mkState h g) = Ok (o', mkState h' g')
                      /\ d' h' o' = v' /\ fp' o' = fp o /\ frame (fp o) h h'
    end.

(** [ld] builds, from a value, an object that reads back as that value;
    it only allocates. *)
Definition loads {O V : Type}
    (fp : O -> list loc) (d : list (list Answer) -> O -> V)
    (ld : V -> M O) : Prop :=
  forall v h g,
    exists o hn, ld v (mkState h g) = Ok (o, mkState (h ++ hn) g)
                 /\ (forall hx, d (h ++ hn ++ hx) o = v)
                 /\ (forall l : loc, l ∈ fp o -> length h <= l < length (h ++ hn))
                 /\ NoDup (fp o).

(** ** Occurrences of a substring *)

(** [sub] occurs in [s] at index [i]. *)
Definition occurs_at (sub s : string) (i : nat) : Prop :=
  exists pre post, s = pre +:+ sub +:+ post /\ String.length pre = i.

(** [i] is the smallest index at which [sub] occurs in [s]. *)
Definition first_occurrence (sub s : string) (i : nat) : Prop :=
  occurs_at sub s i /\ forall j, occurs_at sub s j -> i <= j.

(** [sub] occurs somewhere in [s]. *)
Definition occurs_in (sub s : string) : Prop :=
  exists i, occurs_at sub s i.

(** ** Properties of corpora *)

(** [P] holds of every question of every paragraph of the corpus. *)
Definition every_qa (P : JParagraph -> QAPair -> Prop) (c : JCorpus) : Prop :=
  Forall (fun a => Forall (fun p => Forall (P p) (qas p)) (paragraphs a))
         (data c).

(** [P] relates the paragraphs of two corpora position by position. *)
Definition paragraphwise (P : JParagraph -> JParagraph -> Prop)
    (c c' : JCorpus) : Prop :=
  Forall2 (fun a a' => Forall2 P (paragraphs a) (paragraphs a'))
          (data c) (data c').

(** The first answer text, when it is not empty, occurs in the context. *)
Definition text_in_context (p : JParagraph) (qa : QAPair) : Prop :=
  match answers qa with
  | [] => True
  | a0 :: _ => text a0 <> "" -> occurs_in (text a0) (context p)
  end.

(** [context[answer_start : answer_start + len(text)] == text] for the first
    answer. *)
Definition contained (p : JParagraph) (qa : QAPair) : Prop :=
  match answers qa with
  | [] => True
  | a0 :: _ =>
      PyStr.slice (context p) (answer_start a0)
                  (answer_start a0 + Z.of_nat (String.length (text a0)))
      = text a0
  end.

(** The first answer is labelled at an occurrence of its text. *)
Definition labelled (p : JParagraph) (qa : QAPair) : Prop :=
  match answers qa with
  | [] => True
  | a0 :: _ =>
      exists i, answer_start a0 = Z.of_nat i /\ occurs_at (text a0) (context p) i
  end.

(** The first answer is labelled at the first occurrence of its text. *)
Definition first_located (p : JParagraph) (qa : QAPair) : Prop :=
  match answers qa with
  | [] => True
  | a0 :: _ =>
      exists i, answer_start a0 = Z.of_nat i
                /\ first_occurrence (text a0) (context p) i
  end.

(** [qa'] is [qa] up to the offset of the first answer. *)
Definition same_fields (qa qa' : QAPair) : Prop :=
  question qa' = question qa
  /\ id qa' = id qa
  /\ is_impossible qa' = is_impossible qa
  /\ map text (answers qa') = map text (answers qa)
  /\ tail (answers qa') = tail (answers qa).

(** [qa'] is [qa] with the first answer moved to the first occurrence of its
    text in [ctx]. *)
Definition relocated (ctx : string) (qa qa' : QAPair) : Prop :=
  same_fields qa qa'
  /\ match answers qa' with
     | [] => True
     | a0 :: _ =>
         exists i, answer_start a0 = Z.of_nat i
                   /\ first_occurrence (text a0) ctx i
     end.

(** [p'] is [p] with [suffix] appended after a space and every question
    relocated. *)
Definition perturbed (suffix_ok : JParagraph -> string -> Prop)
    (p p' : JParagraph) : Prop :=
  (exists suffix, suffix_ok p suffix
                  /\ context p' = context p +:+ " " +:+ suffix)
  /\ Forall2 (relocated (context p')) (qas p) (qas p').

(** The offsets of the first answers, in corpus order. *)
Definition answer_starts (c : JCorpus) : list (list (list (option Z))) :=
  map (fun a =>
         map (fun p =>
                map (fun qa => option_map answer_start (head (answers qa)))
                    (qas p))
             (paragraphs a))
      (data c).

(** The suffixes AddAny can append: [num] sentences of the pool, joined by
    spaces. *)
Definition addany_suffix (num : nat) (_ : JParagraph) (suffix : string) : Prop :=
  exists ss, length ss = num
             /\ Forall (fun s => s ∈ AddAny.arbitrary_sentences) ss
             /\ suffix = PyStr.join " " ss.

(** The suffixes AddSent can append to [p]: the template filled with a key
    word of one of the paragraph's questions and that question's first answer
    text. *)
Definition addsent_suffix (nlp : string -> list AddSent.Token)
    (p : JParagraph) (suffix : string) : Prop :=
  exists qa w, qa ∈ qas p
               /\ w ∈ AddSent.key_words nlp (question qa)
               /\ suffix = Pure.AddSent.sentence_of qa w.

(** AddSent can build a sentence for every paragraph: each has a question,
    and every question has a key word. *)
Definition addsent_ready (nlp : string -> list AddSent.Token) (c : JCorpus)
  : Prop :=
  Forall (fun a =>
            Forall (fun p =>
                      qas p <> []
                      /\ Forall (fun qa =>
                                   AddSent.key_words nlp (question qa) <> [])
                                (qas p))
                   (paragraphs a))
         (data c).

(** The questions of [p'] are those of [p] up to the first offsets. *)
Definition same_qas (p p' : JParagraph) : Prop :=
  length (qas p') = length (qas p) /\ Forall2 same_fields (qas p) (qas p').



(** The context of [p'] is the context of [p], a space, and [num] sentences
    of the pool joined by spaces. *)
Definition appended (num : nat) (p p' : JParagraph) : Prop :=
  exists ss, length ss = num
             /\ Forall (fun s => s ∈ AddAny.arbitrary_sentences) ss
             /\ context p' = context p +:+ " " +:+ PyStr.join " " ss.

(** ** The AddSent sentence in the words of its description *)

(** Key words: the texts of the tokens tagged noun, verb or adjective; when
    there is none, the texts of all tokens not tagged as punctuation. *)
Definition spec_key_words (doc : list AddSent.Token) : list string :=
  let content :=
    filter (fun t => AddSent.pos_ t = "NOUN" \/ AddSent.pos_ t = "VERB"
                     \/ AddSent.pos_ t = "ADJ") doc in
  if decide (content = [])
  then map AddSent.tok_text (filter (fun t => AddSent.pos_ t <> "PUNCT") doc)
  else map AddSent.tok_text content.

(** The template, filled with a key word and the answer text of the chosen
    question (empty when it has no answer). *)
Definition spec_sentence (key_word answer_text : string) : string :=
  if decide (answer_text = "")
  then "However, " +:+ key_word +:+ " is not relevant to this context."
  else "However, " +:+ key_word +:+ " is not related to " +:+ answer_text +:+ ".".

(** The text of the first answer of a stored question, [""] without one. *)
Definition stored_answer_text (h : list (list Answer)) (qa : QA loc) : string :=
  match default [] (h !! answers qa) with
  | [] => ""
  | a0 :: _ => text a0
  end.

(** ** Evaluation rows in the words of their description *)

(** The questions of a corpus, each with the context of its paragraph, in
    the order of the file. *)
Definition qa_instances (data : list JArticle) : list (string * QAPair) :=
  flat_map (fun a =>
              flat_map (fun p => map (fun qa => (context p, qa)) (qas p))
                       (paragraphs a))
           data.

(** The question has an answer and the text of its first answer occurs in
    the first 512 characters of the context. *)
Definition scored (inst : string * QAPair) : Prop :=
  exists a0 others,
    answers (snd inst) = a0 :: others
    /\ occurs_in (text a0) (String.substring 0 512 (fst inst)).

Definition scoredb (inst : string * QAPair) : bool :=
  match answers (snd inst) with
  | [] => false
  | a0 :: _ => PyStr.contains (String.substring 0 512 (fst inst)) (text a0)
  end.

(** Equality of two strings up to the case of their characters. *)
Fixpoint caseless_eqb (s t : string) : bool :=
  match s, t with
  | EmptyString, EmptyString => true
  | String a s', String b t' =>
      Ascii.eqb (PyStr.lower_char a) (PyStr.lower_char b) && caseless_eqb s' t'
  | _, _ => false
  end.

Section EvalSpec.

Variable float : Type.
Variable get_answer : string -> string -> string.
Variable calculate_f1_score : string -> string -> float.
Variable calculate_bleu_score : string -> string -> float.
Variable count_grammatical_errors : string -> Z.

(** The row of a scored question. *)
Definition spec_row (attack_name : string) (inst : string * QAPair)
  : Evaluate.Row float :=
  let ground_truth :=
    match answers (snd inst) with [] => "" | a0 :: _ => text a0 end in
  let predicted := get_answer (question (snd inst)) (fst inst) in
  Evaluate.mkRow float attack_name (question (snd inst))
             (String.substring 0 512 (fst inst))
             ground_truth predicted
             (caseless_eqb predicted ground_truth)
             (calculate_f1_score predicted ground_truth)
             (calculate_bleu_score predicted ground_truth)
             (count_grammatical_errors predicted).

End EvalSpec.

(** The value the loaded corpus [this_is] has after a run: the first answer
    of its first question now carries the offset 2. *)
Definition this_is_after : JCorpus :=
  mkCorpus "v2.0"
    [ mkArticle "Test"
        [ mkParagraph "This is a test."
            [ mkQA "What is this?" (Some "q3") (Some false)
                   [ mkAnswer "is" 2 ];
              mkQA "Why?" (Some "q4") (Some true) [] ] ] ].

(** ** Further properties of corpora *)

(** The articles of [c'] carry the titles of those of [c], in order, and
    [P] relates their paragraphs position by position. *)
Definition articlewise (P : JParagraph -> JParagraph -> Prop)
    (c c' : JCorpus) : Prop :=
  Forall2 (fun a a' =>
             title a' = title a
             /\ Forall2 P (paragraphs a) (paragraphs a'))
          (data c) (data c').

(** The context of [p'] is the context of [p], a space, and something
    more. *)
Definition extends_context (p p' : JParagraph) : Prop :=
  exists suffix, context p' = context p +:+ " " +:+ suffix.

(** Questions of [p] without answers are the same questions in [p']. *)
Definition passthrough (p p' : JParagraph) : Prop :=
  Forall2 (fun qa qa' => answers qa = [] -> qa' = qa) (qas p) (qas p').

(** Whenever the first answer text of a question of [p] occurs in the
    context of [p], the offset in [p'] is its first occurrence in that
    context, and the span ends inside it. *)
Definition located_in_original (p p' : JParagraph) : Prop :=
  Forall2 (fun qa qa' =>
             match answers qa, answers qa' with
             | [], [] => True
             | a0 :: _, a0' :: _ =>
                 occurs_in (text a0) (context p) ->
                 exists i,
                   answer_start a0' = Z.of_nat i
                   /\ first_occurrence (text a0) (context p) i
                   /\ i + String.length (text a0) <= String.length (context p)
             | _, _ => False
             end)
          (qas p) (qas p').


(** What AddSent writes for [this_is] when the first question and its first
    key word are drawn. *)
Definition this_is_addsent : JCorpus :=
  mkCorpus "v2.0"
    [ mkArticle "Test"
        [ mkParagraph
            "This is a test. However, What is not related to is."
            [ mkQA "What is this?" (Some "q3") (Some false)
                   [ mkAnswer "is" 2 ];
              mkQA "Why?" (Some "q4") (Some true) [] ] ] ].

(** ** Metrics of the evaluation notebook *)

Module Metrics.

(** [collections.Counter]: the keys in the order they were first counted,
    each with its count. *)
Definition Counter : Type := list (string * nat).

(** [c[k]], which is 0 for a key that is not there. *)
Fixpoint get (c : Counter) (k : string) : nat :=
  match c with
  | [] => 0
  | (k', n) :: c' => if String.eqb k' k then n else get c' k
  end.

(** [c[k] = c.get(k, 0) + 1]. *)
Fixpoint incr (c : Counter) (k : string) : Counter :=
  match c with
  | [] => [(k, 1)]
  | (k', n) :: c' =>
      if String.eqb k' k then (k', S n) :: c' else (k', n) :: incr c' k
  end.

(** [Counter(tokens)]. *)
Definition count_elements (tokens : list string) : Counter :=
  fold_left incr tokens [].

(** [a & b]: for every key of [a] the smaller of the two counts, kept when
    it is positive. *)
Fixpoint intersection (a b : Counter) : Counter :=
  match a with
  | [] => []
  | (elem, count) :: a' =>
      let other_count := get b elem in
      let newcount := if count <? other_count then count else other_count in
      if 0 <? newcount
      then (elem, newcount) :: intersection a' b
      else intersection a' b
  end.

(** A Python number: [int] or [float]. *)
Inductive number (float : Type) : Type :=
| PyInt (z : Z)
| PyFloat (f : float).
Arguments PyInt {float} z.
Arguments PyFloat {float} f.

(** The outcome of an arithmetic expression with divisions. *)
Inductive outcome (A : Type) : Type :=
| Returns (a : A)
| ZeroDivisionError.
Arguments Returns {A} a.
Arguments ZeroDivisionError {A}.

Section WithLibraries.

(** [nltk.word_tokenize]. *)
Variable word_tokenize : string -> list string.

(** Python [float] and its arithmetic: the literal [1.0], the conversion of
    an [int] operand, multiplication, addition, division by a non-zero
    divisor, and the test [x == 0.0]. *)
Variable float : Type.
Variable float_one : float.
Variable float_of_int : Z -> float.
Variable fmul : float -> float -> float.
Variable fadd : float -> float -> float.
Variable fdiv : float -> float -> float.
Variable fis_zero : float -> bool.

(** [x / n] for a float [x] and an int [n]. *)
Definition div_by_int (x : float) (n : nat) : outcome float :=
  if n =? 0 then ZeroDivisionError
  else Returns (fdiv x (float_of_int (Z.of_nat n))).

(** [x / y] for floats. *)
Definition div_by_float (x y : float) : outcome float :=
  if fis_zero y then ZeroDivisionError else Returns (fdiv x y).

(** [num_same] of [calculate_f1_score]. *)
Definition num_same (prediction ground_truth : string) : nat :=
  let prediction_tokens := word_tokenize (PyStr.lower prediction) in
  let ground_truth_tokens := word_tokenize (PyStr.lower ground_truth) in
  let common :=
    intersection (count_elements prediction_tokens)
                 (count_elements ground_truth_tokens) in
  sum_list (map snd common).

Definition calculate_f1_score (prediction ground_truth : string)
  : outcome (number float) :=
  let prediction_tokens := word_tokenize (PyStr.lower prediction) in
  let ground_truth_tokens := word_tokenize (PyStr.lower ground_truth) in
  let num_same := num_same prediction ground_truth in
  if num_same =? 0 then Returns (PyInt 0)
  else
    match div_by_int (fmul float_one (float_of_int (Z.of_nat num_same)))
                     (length prediction_tokens) with
    | ZeroDivisionError => ZeroDivisionError
    | Returns precision =>
        match div_by_int (fmul float_one (float_of_int (Z.of_nat num_same)))
                         (length ground_truth_tokens) with
        | ZeroDivisionError => ZeroDivisionError
        | Returns recall =>
            match div_by_float
                    (fmul (fmul (float_of_int 2) precision) recall)
                    (fadd precision recall) with
            | ZeroDivisionError => ZeroDivisionError
            | Returns f1 => Returns (PyFloat f1)
            end
        end
    end.

(** A spaCy token, of which [count_grammatical_errors] reads [dep_]. *)
Variable SpacyToken : Type.
Variable dep_ : SpacyToken -> string.
Variable nlp : string -> list SpacyToken.

Definition count_grammatical_errors (text : string) : Z :=
  let doc := nlp text in
  (Z.of_nat
     (length (List.filter (fun token => String.eqb (dep_ token) "ROOT") doc))
   - 1)%Z.

End WithLibraries.

End Metrics.

(** ** The loop over the attack files *)

Module Driver.

Section WithCollaborators.

Variable float : Type.
Variable get_answer : string -> string -> string.
Variable calculate_f1_score : string -> string -> float.
Variable calculate_bleu_score : string -> string -> float.
Variable count_grammatical_errors : string -> Z.

(** [for file_path, attack_name in attack_files: ...
    all_results.extend(results)]; a file is given by the articles
    [load_squad_data] reads from it. *)
Definition evaluate_files (attack_files : list (list JArticle * string))
  : list (Evaluate.Row float) :=
  fold_left
    (fun all_results file =>
       let data := fst file in
       let attack_name := snd file in
       let results :=
         Evaluate.evaluate_attack float get_answer calculate_f1_score
           calculate_bleu_score count_grammatical_errors data attack_name in
       all_results ++ results)
    attack_files [].

End WithCollaborators.

End Driver.

(** A tokenizer that splits at single spaces, for the examples. *)
Fixpoint split_spaces (word s : string) : list string :=
  match s with
  | EmptyString => match word with EmptyString => [] | _ => [word] end
  | String c s' =>
      if Ascii.eqb c " "
      then match word with
           | EmptyString => split_spaces "" s'
           | _ => word :: split_spaces "" s'
           end
      else split_spaces (word +:+ String c "") s'
  end.

(** A first answer text of [p] that is not in the context of [p] is found,
    in [p'], in a span that reaches beyond the length of that context. *)
Definition located_in_suffix (p p' : JParagraph) : Prop :=
  Forall2 (fun qa qa' =>
             match answers qa, answers qa' with
             | a0 :: _, a0' :: _ =>
                 ~ occurs_in (text a0) (context p) ->
                 (Z.of_nat (String.length (context p))
                  < answer_start a0' + Z.of_nat (String.length (text a0')))%Z
             | _, _ => True
             end)
          (qas p) (qas p').

(** Every paragraph has exactly one question, and it has a key word. *)
Definition single_question_ready (nlp : string -> list AddSent.Token)
    (c : JCorpus) : Prop :=
  Forall (fun a =>
            Forall (fun p =>
                      exists qa, qas p = [qa]
                                 /\ AddSent.key_words nlp (question qa) <> [])
                   (paragraphs a))
         (data c).

(** ** Questions kept, and the sentence of a draw *)

(** A question of [p] labelled at the first occurrence of its first answer
    text is the same question in [p']. *)
Definition kept_where_first (p p' : JParagraph) : Prop :=
  Forall2 (fun qa qa' => first_located p qa -> qa' = qa) (qas p) (qas p').

(** A context with one answer labelled at a later occurrence of its text and
    one labelled at the first occurrence. *)
Definition mixed : JCorpus :=
  mkCorpus "v2.0"
    [ mkArticle "Test"
        [ mkParagraph "This is a test."
            [ mkQA "What is this?" (Some "q3") (Some false)
                   [ mkAnswer "is" 5 ];
              mkQA "What is it?" (Some "q9") (Some false)
                   [ mkAnswer "test" 10 ] ] ] ].

(** What AddAny writes for [mixed] with the draws 3 and 5. *)
Definition mixed_addany : JCorpus :=
  mkCorpus "v2.0"
    [ mkArticle "Test"
        [ mkParagraph
            ("This is a test."
             +:+ " The local museum is hosting a special exhibition next month."
             +:+ " A group of researchers published a groundbreaking paper last week.")
            [ mkQA "What is this?" (Some "q3") (Some false)
                   [ mkAnswer "is" 2 ];
              mkQA "What is it?" (Some "q9") (Some false)
                   [ mkAnswer "test" 10 ] ] ] ].


(* ================================================================== *)
(** * Properties *)
(* ================================================================== *)

(** ** Evaluation of the string primitives *)

Example find_first : PyStr.find "This is a test." "is" = Some 2.
Proof. reflexivity. Qed.

Example find_absent : PyStr.find "abc" "xyz" = None.
Proof. reflexivity. Qed.

Example find_empty : PyStr.find "abc" "" = Some 0.
Proof. reflexivity. Qed.

Example slice_clamps : PyStr.slice "abc" 1%Z 10%Z = "bc".
Proof. reflexivity. Qed.

Example slice_negative : PyStr.slice "abcdef" (-3)%Z (-1)%Z = "de".
Proof. reflexivity. Qed.

Example lower_ex : PyStr.lower "Paris, FRANCE" = "paris, france".
Proof. reflexivity. Qed.

Example join_ex : PyStr.join " " ["a"; "b"; "c"] = "a b c".
Proof. reflexivity. Qed.


(** ** Facts about strings *)

Section StringFacts.

Lemma app_nil_str (t : string) : "" +:+ t = t.
Proof. reflexivity. Qed.

Lemma app_cons (c : ascii) (s t : string) :
  String c s +:+ t = String c (s +:+ t).
Proof. reflexivity. Qed.

Lemma str_length_app (s t : string) :
  String.length (s +:+ t) = String.length s + String.length t.
Proof.
  induction s as [|c s IH]; [reflexivity|].
  rewrite app_cons. simpl. now rewrite IH.
Qed.

Lemma app_assoc_str (s t u : string) : (s +:+ t) +:+ u = s +:+ t +:+ u.
Proof.
  induction s as [|c s IH]; [reflexivity|].
  rewrite !app_cons. now rewrite IH.
Qed.

Lemma prefix_app (sub post : string) : String.prefix sub (sub +:+ post) = true.
Proof.
  induction sub as [|c sub IH].
  - now destruct post.
  - rewrite app_cons. simpl. destruct (ascii_dec c c); [exact IH | congruence].
Qed.

Lemma prefix_inv (sub s : string) :
  String.prefix sub s = true -> exists post, s = sub +:+ post.
Proof.
  revert s; induction sub as [|c sub IH]; intros s H.
  - exists s; reflexivity.
  - destruct s as [|d s]; simpl in H; [discriminate|].
    destruct (ascii_dec c d) as [->|]; [|discriminate].
    destruct (IH _ H) as [post ->]. exists post; reflexivity.
Qed.

Lemma startswith_occurs (s sub : string) :
  PyStr.startswith s sub = true <-> occurs_at sub s 0.
Proof.
  unfold PyStr.startswith; split.
  - intros H. destruct (prefix_inv _ _ H) as [post ->].
    exists "", post; split; reflexivity.
  - intros (pre & post & -> & Hlen).
    destruct pre; [|discriminate]. rewrite app_nil_str. apply prefix_app.
Qed.

Lemma occurs_at_cons (sub s : string) (c : ascii) (i : nat) :
  occurs_at sub (String c s) (S i) <-> occurs_at sub s i.
Proof.
  split.
  - intros (pre & post & Heq & Hlen).
    destruct pre as [|d pre]; [discriminate|].
    rewrite app_cons in Heq. simpl in Hlen.
    injection Heq as _ ->. injection Hlen as <-.
    exists pre, post; split; reflexivity.
  - intros (pre & post & -> & <-).
    exists (String c pre), post; split; reflexivity.
Qed.

Lemma occurs_at_bound (sub s : string) (i : nat) :
  occurs_at sub s i -> i + String.length sub <= String.length s.
Proof.
  intros (pre & post & -> & <-). rewrite !str_length_app. lia.
Qed.

Lemma find_nil (sub : string) :
  PyStr.find "" sub = if PyStr.startswith "" sub then Some 0 else None.
Proof. reflexivity. Qed.

Lemma find_cons (c : ascii) (s sub : string) :
  PyStr.find (String c s) sub =
  if PyStr.startswith (String c s) sub then Some 0
  else option_map S (PyStr.find s sub).
Proof. reflexivity. Qed.

Lemma find_Some (s sub : string) (i : nat) :
  PyStr.find s sub = Some i -> first_occurrence sub s i.
Proof.
  revert i; induction s as [|c s IH]; intros i;
    rewrite ?find_nil, ?find_cons;
    destruct (PyStr.startswith _ sub) eqn:Hp.
  - intros [= <-]. split; [now apply startswith_occurs | intros; lia].
  - discriminate.
  - intros [= <-]. split; [now apply startswith_occurs | intros; lia].
  - destruct (PyStr.find s sub) as [i'|] eqn:Hf; simpl; [|discriminate].
    intros [= <-]. destruct (IH _ eq_refl) as [Hocc Hmin]. split.
    + now apply occurs_at_cons.
    + intros [|j] Hj.
      * apply startswith_occurs in Hj. congruence.
      * apply occurs_at_cons in Hj. apply Hmin in Hj. lia.
Qed.

Lemma find_None (s sub : string) :
  PyStr.find s sub = None -> ~ occurs_in sub s.
Proof.
  induction s as [|c s IH]; rewrite ?find_nil, ?find_cons;
    destruct (PyStr.startswith _ sub) eqn:Hp; try discriminate.
  - intros _ [[|j] Hj].
    + apply startswith_occurs in Hj. congruence.
    + destruct Hj as (pre & post & Heq & Hlen).
      destruct pre; discriminate.
  - destruct (PyStr.find s sub) eqn:Hf; simpl; [discriminate|].
    intros _ [[|j] Hj].
    + apply startswith_occurs in Hj. congruence.
    + apply occurs_at_cons in Hj. apply IH; [reflexivity | now exists j].
Qed.

Lemma find_occurs (s sub : string) :
  occurs_in sub s -> exists i, PyStr.find s sub = Some i.
Proof.
  intros H. destruct (PyStr.find s sub) as [i|] eqn:Hf; [now exists i|].
  now apply find_None in Hf.
Qed.

Lemma first_occurrence_unique (sub s : string) (i j : nat) :
  first_occurrence sub s i -> first_occurrence sub s j -> i = j.
Proof.
  intros [Hi Hmi] [Hj Hmj]. apply Hmi in Hj. apply Hmj in Hi. lia.
Qed.

Lemma occurs_at_app (sub s t : string) (i : nat) :
  occurs_at sub s i -> occurs_at sub (s +:+ t) i.
Proof.
  intros (pre & post & -> & <-). exists pre, (post +:+ t). split; [|reflexivity].
  now rewrite !app_assoc_str.
Qed.

Lemma prefix_app_long (sub s t : string) :
  String.length sub <= String.length s ->
  String.prefix sub (s +:+ t) = String.prefix sub s.
Proof.
  revert s; induction sub as [|c sub IH]; intros s Hlen.
  - destruct s; [now destruct t | reflexivity].
  - destruct s as [|d s]; simpl in Hlen; [lia|].
    rewrite app_cons. simpl.
    destruct (ascii_dec c d); [apply IH; lia | reflexivity].
Qed.

(** Appending to [s] does not move the first occurrence found in [s]. *)
Lemma find_app (s t sub : string) (i : nat) :
  PyStr.find s sub = Some i -> PyStr.find (s +:+ t) sub = Some i.
Proof.
  revert i; induction s as [|c s IH]; intros i H.
  - rewrite find_nil in H.
    destruct (PyStr.startswith "" sub) eqn:Hp; [|discriminate].
    injection H as <-. apply startswith_occurs in Hp.
    apply (occurs_at_app _ _ t), startswith_occurs in Hp.
    rewrite app_nil_str in *.
    destruct t; rewrite ?find_nil, ?find_cons; now rewrite Hp.
  - pose proof (find_Some _ _ _ H) as [Hocc _].
    apply occurs_at_bound in Hocc.
    rewrite app_cons, find_cons. rewrite find_cons in H.
    unfold PyStr.startswith in *. rewrite <- app_cons.
    rewrite prefix_app_long by (simpl in *; lia).
    destruct (String.prefix sub (String c s)); [exact H|].
    destruct (PyStr.find s sub) as [i'|] eqn:Hf; [|discriminate].
    simpl in H. injection H as <-. now rewrite (IH _ eq_refl).
Qed.

Lemma substring_app (pre sub post : string) :
  String.substring (String.length pre) (String.length sub)
                   (pre +:+ sub +:+ post) = sub.
Proof.
  induction pre as [|c pre IH]; [|rewrite app_cons; exact IH].
  rewrite app_nil_str.
  induction sub as [|d sub IHs].
  - now destruct post.
  - rewrite app_cons. simpl. simpl in IHs. now rewrite IHs.
Qed.

Lemma adjust_nat (len i : nat) :
  i <= len -> PyStr.adjust len (Z.of_nat i) = i.
Proof.
  intros H. unfold PyStr.adjust.
  destruct (Z.ltb_spec (Z.of_nat i) 0); [lia|].
  rewrite Nat2Z.id. lia.
Qed.

(** The Python slice at an occurrence is the substring itself. *)
Lemma occurs_at_slice (sub s : string) (i : nat) :
  occurs_at sub s i ->
  PyStr.slice s (Z.of_nat i) (Z.of_nat i + Z.of_nat (String.length sub)) = sub.
Proof.
  intros H. pose proof (occurs_at_bound _ _ _ H) as Hb.
  destruct H as (pre & post & -> & <-).
  unfold PyStr.slice. rewrite <- Nat2Z.inj_add.
  rewrite !adjust_nat by lia.
  replace (String.length pre + String.length sub - String.length pre)
    with (String.length sub) by lia.
  apply substring_app.
Qed.

End StringFacts.

(** ** The store: loops over stored objects *)

Section Loops.

Context {O V O' V' : Type}.
Variable fp : O -> list loc.
Variable d : list (list Answer) -> O -> V.
Variable fp' : O' -> list loc.
Variable d' : list (list Answer) -> O' -> V'.

Lemma stable_list :
  stable fp d ->
  stable (fun xs => concat (map fp xs)) (fun h xs => map (d h) xs).
Proof.
  intros Hst h h' xs. induction xs as [|x xs IH]; intros Hagree; simpl.
  - reflexivity.
  - f_equal.
    + apply Hst. intros l Hl. apply Hagree. simpl. apply elem_of_app. now left.
    + apply IH. intros l Hl. apply Hagree. simpl. apply elem_of_app. now right.
Qed.

Lemma frame_refl (X : list loc) (h : list (list Answer)) : frame X h h.
Proof. intros l _. reflexivity. Qed.

Lemma frame_trans (X Y : list loc) (h1 h2 h3 : list (list Answer)) :
  frame X h1 h2 -> frame Y h2 h3 -> frame (X ++ Y) h1 h3.
Proof.
  intros H12 H23 l Hl. apply not_elem_of_app in Hl as [HX HY].
  rewrite (H23 _ HY). now apply H12.
Qed.

Lemma for_each_simulates (body : O -> M O') (f : V -> Rand V') :
  stable fp d -> stable fp' d' ->
  simulates fp d fp' d' body f ->
  forall os acc h g, NoDup (concat (map fp os)) ->
    match Pure.map_rand f (map (d h) os) g with
    | Raise e => for_each body os acc (mkState h g) = Raise e
    | Ok (vs', g') =>
        exists os' h',
          for_each body os acc (mkState h g) = Ok (acc ++ os', mkState h' g')
          /\ map (d' h') os' = vs'
          /\ map fp' os' = map fp os
          /\ frame (concat (map fp os)) h h'
    end.
Proof.
  intros Hst Hst' Hsim os.
  induction os as [|o os IH]; intros acc h g Hnd.
  - simpl. exists [], h. rewrite app_nil_r.
    split_and!; auto using frame_refl.
  - simpl in Hnd. apply NoDup_app in Hnd as (Hnd_o & Hdisj & Hnd_os).
    simpl. unfold bind at 1.
    specialize (Hsim o h g Hnd_o).
    destruct (f (d h o) g) as [[v' g1]|e].
    + destruct Hsim as (o' & h1 & Hbody & Hd & Hfp & Hfr).
      specialize (IH (acc ++ [o']) h1 g1 Hnd_os).
      assert (Hsame : map (d h1) os = map (d h) os).
      { apply (stable_list Hst). intros l Hl. apply Hfr.
        intros Hlo. exact (Hdisj _ Hlo Hl). }
      rewrite Hsame in IH. unfold bind at 1.
      destruct (Pure.map_rand f (map (d h) os) g1) as [[vs' g2]|e].
      * destruct IH as (os' & h2 & Hloop & Hd2 & Hfp2 & Hfr2).
        exists (o' :: os'), h2. unfold bind. rewrite Hbody, Hloop.
        rewrite <- app_assoc. simpl. split_and!.
        -- reflexivity.
        -- f_equal; [|exact Hd2]. rewrite <- Hd. apply Hst'.
           intros l Hl. apply Hfr2. rewrite Hfp in Hl.
           exact (Hdisj _ Hl).
        -- now rewrite Hfp, Hfp2.
        -- eapply frame_trans; eauto.
      * unfold bind. now rewrite Hbody, IH.
    + unfold bind. now rewrite Hsim.
Qed.

Lemma for_each_loads (ld : V -> M O) :
  loads fp d ld ->
  forall vs acc h g,
    exists os hn,
      for_each ld vs acc (mkState h g) = Ok (acc ++ os, mkState (h ++ hn) g)
      /\ (forall hx, map (d (h ++ hn ++ hx)) os = vs)
      /\ (forall l : loc, l ∈ concat (map fp os) ->
                          length h <= l < length (h ++ hn))
      /\ NoDup (concat (map fp os)).
Proof.
  intros Hld vs. induction vs as [|v vs IH]; intros acc h g.
  - exists [], []. simpl. rewrite !app_nil_r. split_and!.
    + reflexivity.
    + reflexivity.
    + intros l Hl; inversion Hl.
    + constructor.
  - destruct (Hld v h g) as (o & hn1 & Hrun & Hd & Hb & Hnd).
    destruct (IH (acc ++ [o]) (h ++ hn1) g)
      as (os & hn2 & Hloop & Hd2 & Hb2 & Hnd2).
    exists (o :: os), (hn1 ++ hn2). simpl. unfold bind.
    rewrite Hrun, Hloop. rewrite <- !app_assoc. simpl. split_and!.
    + reflexivity.
    + intros hx. specialize (Hd (hn2 ++ hx)). specialize (Hd2 hx).
      rewrite <- !app_assoc in Hd2. rewrite <- !app_assoc. now f_equal.
    + intros l Hl. apply elem_of_app in Hl as [Hl|Hl].
      * apply Hb in Hl. rewrite !length_app in *. lia.
      * apply Hb2 in Hl. rewrite !length_app in *. lia.
    + apply NoDup_app. split_and!; auto.
      intros l Hl Hl2. apply Hb in Hl. apply Hb2 in Hl2. lia.
Qed.

End Loops.

(** ** The store: loading a corpus *)

Section Loading.

Lemma stable_qa : stable locs_qa Json.dump_qa.
Proof.
  intros h h' qa Hagree. unfold Json.dump_qa. rewrite Hagree; [reflexivity|].
  apply list_elem_of_singleton. reflexivity.
Qed.

Lemma stable_paragraph : stable locs_paragraph Json.dump_paragraph.
Proof.
  intros h h' p Hagree. unfold Json.dump_paragraph. f_equal.
  now apply (stable_list locs_qa Json.dump_qa stable_qa).
Qed.

Lemma stable_article : stable locs_article Json.dump_article.
Proof.
  intros h h' a Hagree. unfold Json.dump_article. f_equal.
  now apply (stable_list locs_paragraph Json.dump_paragraph stable_paragraph).
Qed.

Lemma loads_qa : loads locs_qa Json.dump_qa Json.load_qa.
Proof.
  intros qa h g. exists (mkQA (question qa) (id qa) (is_impossible qa) (length h)).
  exists [answers qa]. split_and!.
  - reflexivity.
  - intros hx. unfold Json.dump_qa. simpl.
    rewrite lookup_app_r by lia. rewrite Nat.sub_diag. simpl. now destruct qa.
  - intros l Hl. apply list_elem_of_singleton in Hl. simpl in Hl.
    rewrite length_app. simpl. lia.
  - apply NoDup_singleton.
Qed.

Lemma loads_paragraph :
  loads locs_paragraph Json.dump_paragraph Json.load_paragraph.
Proof.
  intros p h g.
  destruct (for_each_loads locs_qa Json.dump_qa _ loads_qa (qas p) [] h g)
    as (os & hn & Hrun & Hd & Hb & Hnd).
  exists (mkParagraph (context p) os), hn. split_and!; auto.
  - unfold Json.load_paragraph, bind. now rewrite Hrun.
  - intros hx. unfold Json.dump_paragraph. simpl. rewrite Hd. now destruct p.
Qed.

Lemma loads_article : loads locs_article Json.dump_article Json.load_article.
Proof.
  intros a h g.
  destruct (for_each_loads locs_paragraph Json.dump_paragraph _
              loads_paragraph (paragraphs a) [] h g)
    as (os & hn & Hrun & Hd & Hb & Hnd).
  exists (mkArticle (title a) os), hn. split_and!; auto.
  - unfold Json.load_article, bind. now rewrite Hrun.
  - intros hx. unfold Json.dump_article. simpl. rewrite Hd. now destruct a.
Qed.

(** [json.load] yields a tree: it reads back as the file, and no list
    object is reachable twice. *)
Lemma load_corpus (input : JCorpus) (seed : list nat) :
  exists arts h,
    Json.load input (mkState [] seed)
    = Ok (mkCorpus (version input) arts, mkState h seed)
    /\ map (Json.dump_article h) arts = data input
    /\ NoDup (concat (map locs_article arts)).
Proof.
  destruct (for_each_loads locs_article Json.dump_article _
              loads_article (data input) [] [] seed)
    as (os & hn & Hrun & Hd & Hb & Hnd).
  exists os, hn. split_and!; auto.
  - unfold Json.load, bind. now rewrite Hrun.
  - specialize (Hd []). now rewrite app_nil_r in Hd.
Qed.

End Loading.

(** ** The store: the generators agree with their value-level description *)

Section Agreement.

Lemma relocate_qa_simulates (adv_context : string) :
  simulates locs_qa Json.dump_qa locs_qa Json.dump_qa
            (relocate_qa adv_context)
            (fun v => Pure.of_result (Pure.relocate adv_context v)).
Proof.
  intros [q i imp l] h g _.
  unfold Pure.of_result, Pure.relocate, relocate_qa, Json.dump_qa, bind, load.
  simpl.
  destruct (h !! l) as [[|a0 others]|] eqn:Hl; simpl.
  - exists (mkQA q i imp l), h. split_and!; auto using frame_refl.
    simpl. now rewrite Hl.
  - destruct (PyStr.find adv_context (text a0)) as [n|]; [|reflexivity].
    exists (mkQA q i imp l),
           (<[l := mkAnswer (text a0) (Z.of_nat n) :: others]> h).
    split_and!; auto.
    + simpl. rewrite list_lookup_insert_eq; [reflexivity|].
      eapply lookup_lt_Some; eauto.
    + intros l' Hl'. apply list_lookup_insert_ne.
      intros ->. apply Hl'. now apply list_elem_of_singleton.
  - exists (mkQA q i imp l), h. split_and!; auto using frame_refl.
    simpl. now rewrite Hl.
Qed.

Lemma relocate_qas_agree (adv_context : string) (p : Paragraph loc)
    (h : list (list Answer)) (g : list nat) :
  NoDup (locs_paragraph p) ->
  match Pure.relocate_all adv_context (qas (Json.dump_paragraph h p)) g with
  | Raise e => relocate_qas adv_context (qas p) (mkState h g) = Raise e
  | Ok (vs', g') =>
      exists os' h',
        relocate_qas adv_context (qas p) (mkState h g)
        = Ok (os', mkState h' g')
        /\ map (Json.dump_qa h') os' = vs'
        /\ map locs_qa os' = map locs_qa (qas p)
        /\ frame (locs_paragraph p) h h'
  end.
Proof.
  intros Hnd.
  exact (for_each_simulates _ _ _ _ _ _ stable_qa stable_qa
           (relocate_qa_simulates adv_context) (qas p) [] h g Hnd).
Qed.

Lemma lift_rand_run {A} (c : Rand A) (h : list (list Answer)) (g : list nat) :
  lift_rand c (mkState h g)
  = match c g with
    | Ok (a, g') => Ok (a, mkState h g')
    | Raise e => Raise e
    end.
Proof. reflexivity. Qed.

Lemma generate_sentences_agree (n : nat) (h : list (list Answer))
    (g : list nat) :
  AddAny.generate_sentences n (mkState h g)
  = match Pure.AddAny.sentences n g with
    | Ok (ss, g') => Ok (ss, mkState h g')
    | Raise e => Raise e
    end.
Proof.
  revert g; induction n as [|n IH]; intros g; [reflexivity|].
  simpl. unfold bind, AddAny.generate_arbitrary_sentence.
  rewrite lift_rand_run.
  destruct (random_choice AddAny.arbitrary_sentences g) as [[s g1]|e];
    [|reflexivity].
  rewrite IH.
  now destruct (Pure.AddAny.sentences n g1) as [[ss g2]|e].
Qed.

Lemma AddAny_paragraph_simulates (num : nat) :
  simulates locs_paragraph Json.dump_paragraph
            locs_paragraph Json.dump_paragraph
            (AddAny.process_paragraph num) (Pure.AddAny.paragraph num).
Proof.
  intros p h g Hnd.
  unfold Pure.AddAny.paragraph, AddAny.process_paragraph, bind.
  rewrite generate_sentences_agree.
  destruct (Pure.AddAny.sentences num g) as [[ss g1]|e]; [|reflexivity].
  pose proof (relocate_qas_agree
                (Pure.AddAny.adv_context (Json.dump_paragraph h p) ss)
                p h g1 Hnd) as Hq.
  unfold Pure.AddAny.adv_context in *. simpl in *.
  destruct (Pure.relocate_all _ _ g1) as [[vs' g2]|e].
  - destruct Hq as (os' & h' & Hrun & Hd & Hfp & Hfr).
    exists (mkParagraph (context p +:+ " " +:+ PyStr.join " " ss) os'), h'.
    rewrite Hrun. split_and!; auto.
    + unfold Json.dump_paragraph. simpl. now rewrite Hd.
    + unfold locs_paragraph. simpl. now rewrite Hfp.
  - now rewrite Hq.
Qed.

Lemma AddAny_article_simulates (num : nat) :
  simulates locs_article Json.dump_article locs_article Json.dump_article
            (AddAny.process_article num) (Pure.AddAny.article num).
Proof.
  intros a h g Hnd.
  pose proof (for_each_simulates _ _ _ _ _ _
                stable_paragraph stable_paragraph
                (AddAny_paragraph_simulates num) (paragraphs a) [] h g Hnd)
    as Hp.
  unfold Pure.AddAny.article, AddAny.process_article, bind. simpl in *.
  destruct (Pure.map_rand _ _ g) as [[vs' g1]|e].
  - destruct Hp as (os' & h' & Hrun & Hd & Hfp & Hfr).
    exists (mkArticle (title a) os'), h'. rewrite Hrun. split_and!; auto.
    + unfold Json.dump_article. simpl. now rewrite Hd.
    + unfold locs_article. simpl. now rewrite Hfp.
  - now rewrite Hp.
Qed.

(** The AddAny generator computes [Pure.AddAny.corpus]. *)
Lemma AddAny_agrees (input : JCorpus) (num : nat) (seed : list nat) :
  AddAny.process_squad_file input num seed
  = Pure.run (Pure.AddAny.corpus num input) seed.
Proof.
  destruct (load_corpus input seed) as (arts & h & Hload & Hd & Hnd).
  pose proof (for_each_simulates _ _ _ _ _ _
                stable_article stable_article
                (AddAny_article_simulates num) arts [] h seed Hnd) as Ha.
  rewrite Hd in Ha.
  unfold AddAny.process_squad_file, Pure.run, Pure.AddAny.corpus,
    AddAny.transform, bind.
  rewrite Hload. simpl.
  destruct (Pure.map_rand _ _ seed) as [[vs' g1]|e].
  - destruct Ha as (os' & h' & Hrun & Hd' & _ & _).
    rewrite Hrun. unfold Json.dump, Json.dump_corpus. simpl.
    now rewrite Hd'.
  - now rewrite Ha.
Qed.

Lemma lookup_map {A B} (f : A -> B) (xs : list A) (i : nat) :
  map f xs !! i = option_map f (xs !! i).
Proof.
  revert i; induction xs as [|x xs IH]; intros [|i]; simpl; auto.
Qed.

Lemma random_choice_map {A B} (f : A -> B) (xs : list A) (g : list nat) :
  random_choice (map f xs) g
  = match random_choice xs g with
    | Ok (x, g') => Ok (f x, g')
    | Raise e => Raise e
    end.
Proof.
  destruct xs as [|x xs]; [reflexivity|].
  unfold random_choice. rewrite length_map.
  change (map f (x :: xs)) with (f x :: map f xs).
  destruct (randbelow (length (x :: xs)) g) as [[i g1]|e]; [|reflexivity].
  change (f x :: map f xs) with (map f (x :: xs)).
  rewrite lookup_map. now destruct ((x :: xs) !! i).
Qed.

Section WithTagger.

Variable nlp : string -> list AddSent.Token.

Lemma generate_adversarial_sentence_agree (qas : list (QA loc))
    (h : list (list Answer)) (g : list nat) :
  AddSent.generate_adversarial_sentence nlp qas (mkState h g)
  = match Pure.AddSent.sentence nlp (map (Json.dump_qa h) qas) g with
    | Ok (s, g') => Ok (s, mkState h g')
    | Raise e => Raise e
    end.
Proof.
  unfold AddSent.generate_adversarial_sentence, Pure.AddSent.sentence, bind.
  rewrite lift_rand_run, random_choice_map.
  destruct (random_choice qas g) as [[qa g1]|e]; [|reflexivity].
  unfold load. simpl.
  unfold Pure.AddSent.sentence_of, Pure.AddSent.first_text. simpl.
  destruct (default [] (h !! answers qa)) as [|a0 others]; simpl.
  - rewrite lift_rand_run.
    now destruct (random_choice _ g1) as [[w g2]|e].
  - destruct (AddSent.nonempty (text a0)); rewrite lift_rand_run;
      now destruct (random_choice _ g1) as [[w g2]|e].
Qed.

Lemma AddSent_paragraph_simulates :
  simulates locs_paragraph Json.dump_paragraph
            locs_paragraph Json.dump_paragraph
            (AddSent.process_paragraph nlp) (Pure.AddSent.paragraph nlp).
Proof.
  intros p h g Hnd.
  unfold Pure.AddSent.paragraph, AddSent.process_paragraph, bind.
  rewrite generate_adversarial_sentence_agree.
  change (qas (Json.dump_paragraph h p)) with (map (Json.dump_qa h) (qas p)).
  destruct (Pure.AddSent.sentence nlp _ g) as [[s g1]|e]; [|reflexivity].
  pose proof (relocate_qas_agree
                (Pure.AddSent.adv_context (Json.dump_paragraph h p) s)
                p h g1 Hnd) as Hq.
  unfold Pure.AddSent.adv_context in *. simpl in *.
  destruct (Pure.relocate_all _ _ g1) as [[vs' g2]|e].
  - destruct Hq as (os' & h' & Hrun & Hd & Hfp & Hfr).
    exists (mkParagraph (context p +:+ " " +:+ s) os'), h'.
    rewrite Hrun. split_and!; auto.
    + unfold Json.dump_paragraph. simpl. now rewrite Hd.
    + unfold locs_paragraph. simpl. now rewrite Hfp.
  - now rewrite Hq.
Qed.

Lemma AddSent_article_simulates :
  simulates locs_article Json.dump_article locs_article Json.dump_article
            (AddSent.process_article nlp) (Pure.AddSent.article nlp).
Proof.
  intros a h g Hnd.
  pose proof (for_each_simulates _ _ _ _ _ _
                stable_paragraph stable_paragraph
                AddSent_paragraph_simulates (paragraphs a) [] h g Hnd)
    as Hp.
  unfold Pure.AddSent.article, AddSent.process_article, bind. simpl in *.
  destruct (Pure.map_rand _ _ g) as [[vs' g1]|e].
  - destruct Hp as (os' & h' & Hrun & Hd & Hfp & Hfr).
    exists (mkArticle (title a) os'), h'. rewrite Hrun. split_and!; auto.
    + unfold Json.dump_article. simpl. now rewrite Hd.
    + unfold locs_article. simpl. now rewrite Hfp.
  - now rewrite Hp.
Qed.

(** The AddSent generator computes [Pure.AddSent.corpus]. *)
Lemma AddSent_agrees (input : JCorpus) (seed : list nat) :
  AddSent.process_squad_file nlp input seed
  = Pure.run (Pure.AddSent.corpus nlp input) seed.
Proof.
  destruct (load_corpus input seed) as (arts & h & Hload & Hd & Hnd).
  pose proof (for_each_simulates _ _ _ _ _ _
                stable_article stable_article
                AddSent_article_simulates arts [] h seed Hnd) as Ha.
  rewrite Hd in Ha.
  unfold AddSent.process_squad_file, Pure.run, Pure.AddSent.corpus,
    AddSent.transform, bind.
  rewrite Hload. simpl.
  destruct (Pure.map_rand _ _ seed) as [[vs' g1]|e].
  - destruct Ha as (os' & h' & Hrun & Hd' & _ & _).
    rewrite Hrun. unfold Json.dump, Json.dump_corpus. simpl.
    now rewrite Hd'.
  - now rewrite Ha.
Qed.

End WithTagger.

End Agreement.

(** ** The generators on values: what a completed run looks like *)

Section PureFacts.

Lemma map_rand_Forall2 {A B} (f : A -> Rand B) (R : A -> B -> Prop) :
  (forall x g y g', f x g = Ok (y, g') -> R x y) ->
  forall xs g ys g', Pure.map_rand f xs g = Ok (ys, g') -> Forall2 R xs ys.
Proof.
  intros Hf xs. induction xs as [|x xs IH]; intros g ys g' H.
  - injection H as <- _. constructor.
  - simpl in H. unfold bind in H.
    destruct (f x g) as [[y g1]|e] eqn:Hx; [|discriminate].
    destruct (Pure.map_rand f xs g1) as [[ys1 g2]|e] eqn:Hxs; [|discriminate].
    injection H as <- _. constructor; eauto.
Qed.

Lemma map_rand_total {A B} (f : A -> Rand B) (xs : list A) :
  (forall x, x ∈ xs -> forall g, exists y g', f x g = Ok (y, g')) ->
  forall g, exists ys g', Pure.map_rand f xs g = Ok (ys, g').
Proof.
  induction xs as [|x xs IH]; intros Hf g.
  - now exists [], g.
  - destruct (Hf x (list_elem_of_here _ _) g) as (y & g1 & Hx).
    destruct (IH (fun z Hz => Hf z (list_elem_of_further _ _ _ Hz)) g1)
      as (ys & g2 & Hxs).
    exists (y :: ys), g2. simpl. unfold bind. now rewrite Hx, Hxs.
Qed.


Lemma relocate_relocated (ctx : string) (qa qa' : QAPair) :
  Pure.relocate ctx qa = Ok qa' -> relocated ctx qa qa'.
Proof.
  unfold Pure.relocate, relocated, same_fields.
  destruct qa as [q i imp [|a0 others]]; simpl.
  - intros [= <-]. simpl. tauto.
  - destruct (PyStr.find ctx (text a0)) as [n|] eqn:Hf; [|discriminate].
    intros [= <-]. simpl. split_and!; auto.
    exists n. split; [reflexivity|]. now apply find_Some.
Qed.

Lemma relocate_all_relocated (ctx : string) (qas qas' : list QAPair)
    (g g' : list nat) :
  Pure.relocate_all ctx qas g = Ok (qas', g') ->
  Forall2 (relocated ctx) qas qas'.
Proof.
  apply map_rand_Forall2. intros qa g1 qa' g2. unfold Pure.of_result.
  destruct (Pure.relocate ctx qa) eqn:Hr; [|discriminate].
  intros [= <- _]. now apply relocate_relocated.
Qed.

Lemma relocate_all_rng (ctx : string) (qas qas' : list QAPair)
    (g g' : list nat) :
  Pure.relocate_all ctx qas g = Ok (qas', g') -> g' = g.
Proof.
  unfold Pure.relocate_all. revert qas' g'.
  induction qas as [|qa qas IH]; intros qas' g' H.
  - now injection H as _ <-.
  - simpl in H. unfold bind, Pure.of_result in H.
    destruct (Pure.relocate ctx qa); [|discriminate].
    destruct (Pure.map_rand _ qas g) as [[ys g1]|e] eqn:Hxs; [|discriminate].
    injection H as _ <-. eauto.
Qed.

(** If the text of every first answer is found in [ctx], the loop over the
    questions completes. *)
Lemma relocate_all_total (ctx : string) (qas : list QAPair) (g : list nat) :
  Forall (fun qa => match answers qa with
                    | [] => True
                    | a0 :: _ => occurs_in (text a0) ctx
                    end) qas ->
  exists qas', Pure.relocate_all ctx qas g = Ok (qas', g).
Proof.
  intros Hall.
  destruct (map_rand_total
              (fun qa => Pure.of_result (Pure.relocate ctx qa)) qas) with (g := g)
    as (qas' & g' & H).
  - intros qa Hqa g1. rewrite Forall_forall in Hall. specialize (Hall qa Hqa).
    unfold Pure.of_result, Pure.relocate.
    destruct (answers qa) as [|a0 others]; [eauto|].
    destruct (find_occurs _ _ Hall) as [n ->]. eauto.
  - exists qas'. pose proof (relocate_all_rng _ _ _ _ _ H) as ->. exact H.
Qed.


Lemma random_choice_in {A} (xs : list A) (g g' : list nat) (x : A) :
  random_choice xs g = Ok (x, g') -> x ∈ xs.
Proof.
  unfold random_choice. destruct xs as [|x0 xs]; [discriminate|].
  destruct (randbelow _ g) as [[i g1]|e]; [|discriminate].
  destruct ((x0 :: xs) !! i) as [y|] eqn:Hi; [|discriminate].
  intros [= <- _]. eapply list_elem_of_lookup_2; eauto.
Qed.

Lemma random_choice_total {A} (xs : list A) (g : list nat) :
  xs <> [] -> exists x g', random_choice xs g = Ok (x, g').
Proof.
  intros Hne. unfold random_choice. destruct xs as [|x0 xs]; [congruence|].
  assert (Hi : exists i g1, randbelow (length (x0 :: xs)) g = Ok (i, g1)
                            /\ i < length (x0 :: xs)).
  { destruct g as [|r g1]; unfold randbelow.
    - exists 0, []. split; [reflexivity | simpl; lia].
    - eexists _, g1. split; [reflexivity|].
      apply Nat.mod_upper_bound. discriminate. }
  destruct Hi as (i & g1 & -> & Hlt).
  destruct (lookup_lt_is_Some_2 _ _ Hlt) as [y ->]. eauto.
Qed.

Lemma random_choice_raises {A} (xs : list A) (g : list nat) (e : exn) :
  random_choice xs g = Raise e -> xs = [] /\ e = IndexError.
Proof.
  destruct xs as [|x0 xs]; [now intros [= <-]|].
  destruct (random_choice_total (x0 :: xs) g) as (x & g' & ->);
    [discriminate | discriminate].
Qed.

Lemma occurs_in_empty (s : string) : occurs_in "" s.
Proof. exists 0, "", s. split; reflexivity. Qed.

Lemma text_in_context_app (p : JParagraph) (suffix : string) (qa : QAPair) :
  text_in_context p qa ->
  match answers qa with
  | [] => True
  | a0 :: _ => occurs_in (text a0) (context p +:+ suffix)
  end.
Proof.
  unfold text_in_context. destruct (answers qa) as [|a0 others]; [auto|].
  intros H. destruct (text a0) as [|c t] eqn:Ht.
  - apply occurs_in_empty.
  - destruct H as [i Hi]; [discriminate|]. exists i. now apply occurs_at_app.
Qed.

(** *** AddAny *)

Lemma sentences_spec (n : nat) (g : list nat) :
  exists ss g', Pure.AddAny.sentences n g = Ok (ss, g')
                /\ length ss = n
                /\ Forall (fun s => s ∈ AddAny.arbitrary_sentences) ss.
Proof.
  revert g; induction n as [|n IH]; intros g.
  - exists [], g. split_and!; [reflexivity | reflexivity | constructor].
  - destruct (random_choice_total AddAny.arbitrary_sentences g)
      as (s & g1 & Hs); [discriminate|].
    destruct (IH g1) as (ss & g2 & Hss & Hlen & Hall).
    exists (s :: ss), g2. simpl. unfold bind. rewrite Hs, Hss.
    split_and!; [reflexivity | simpl; lia |].
    constructor; [|exact Hall]. eapply random_choice_in; eauto.
Qed.

Lemma AddAny_paragraph_perturbed (num : nat) (p p' : JParagraph)
    (g g' : list nat) :
  Pure.AddAny.paragraph num p g = Ok (p', g') ->
  perturbed (addany_suffix num) p p'.
Proof.
  unfold Pure.AddAny.paragraph, bind.
  destruct (sentences_spec num g) as (ss & g1 & -> & Hlen & Hall).
  destruct (Pure.relocate_all _ (qas p) g1) as [[qs g2]|e] eqn:Hq;
    [|discriminate].
  intros [= <- _]. split; simpl.
  - exists (PyStr.join " " ss). split; [|reflexivity]. now exists ss.
  - eapply relocate_all_relocated; eauto.
Qed.

Lemma AddAny_paragraph_total (num : nat) (p : JParagraph) (g : list nat) :
  Forall (text_in_context p) (qas p) ->
  exists p' g', Pure.AddAny.paragraph num p g = Ok (p', g').
Proof.
  intros Hin. unfold Pure.AddAny.paragraph, bind.
  destruct (sentences_spec num g) as (ss & g1 & -> & _ & _).
  destruct (relocate_all_total (Pure.AddAny.adv_context p ss) (qas p) g1)
    as (qs & ->); [|eauto].
  eapply Forall_impl; [exact Hin|]. intros qa Hqa.
  apply (text_in_context_app p (" " +:+ PyStr.join " " ss) qa Hqa).
Qed.


Lemma AddAny_corpus_perturbed (num : nat) (c c' : JCorpus) (g : list nat) :
  Pure.run (Pure.AddAny.corpus num c) g = Ok c' ->
  version c' = "v2.0" /\ paragraphwise (perturbed (addany_suffix num)) c c'.
Proof.
  unfold Pure.run, Pure.AddAny.corpus, bind.
  destruct (Pure.map_rand _ (data c) g) as [[arts g1]|e] eqn:Ha; [|discriminate].
  intros [= <-]. split; [reflexivity|]. unfold paragraphwise. simpl.
  eapply map_rand_Forall2; [|exact Ha].
  intros a g2 a' g3. unfold Pure.AddAny.article, bind.
  destruct (Pure.map_rand _ (paragraphs a) g2) as [[ps g4]|e] eqn:Hp;
    [|discriminate].
  intros [= <- _]. simpl.
  eapply map_rand_Forall2; [|exact Hp].
  intros. eapply AddAny_paragraph_perturbed; eauto.
Qed.

Lemma AddAny_corpus_total (num : nat) (c : JCorpus) (g : list nat) :
  every_qa text_in_context c ->
  exists c', Pure.run (Pure.AddAny.corpus num c) g = Ok c'.
Proof.
  intros Hin. unfold Pure.run, Pure.AddAny.corpus, bind.
  destruct (map_rand_total (Pure.AddAny.article num) (data c)) with (g := g)
    as (arts & g1 & ->); [|eauto].
  intros a Ha g2. unfold every_qa in Hin. rewrite Forall_forall in Hin.
  specialize (Hin a Ha). unfold Pure.AddAny.article, bind.
  destruct (map_rand_total (Pure.AddAny.paragraph num) (paragraphs a))
    with (g := g2) as (ps & g3 & ->); [|eauto].
  intros p Hp g4. rewrite Forall_forall in Hin.
  now apply AddAny_paragraph_total, Hin.
Qed.


(** *** AddSent *)

Section WithTagger.

Variable nlp : string -> list AddSent.Token.

Lemma AddSent_sentence_suffix (p : JParagraph) (s : string)
    (g g' : list nat) :
  Pure.AddSent.sentence nlp (qas p) g = Ok (s, g') ->
  addsent_suffix nlp p s.
Proof.
  unfold Pure.AddSent.sentence, bind.
  destruct (random_choice (qas p) g) as [[qa g1]|e] eqn:Hqa; [|discriminate].
  destruct (random_choice _ g1) as [[w g2]|e] eqn:Hw; [|discriminate].
  intros [= <- _]. exists qa, w.
  split_and!; [| |reflexivity]; eapply random_choice_in; eauto.
Qed.

Lemma AddSent_sentence_total (p : JParagraph) (g : list nat) :
  qas p <> [] ->
  Forall (fun qa => AddSent.key_words nlp (question qa) <> []) (qas p) ->
  exists s g', Pure.AddSent.sentence nlp (qas p) g = Ok (s, g').
Proof.
  intros Hne Hkw. unfold Pure.AddSent.sentence, bind.
  destruct (random_choice_total (qas p) g Hne) as (qa & g1 & Hqa).
  rewrite Hqa. apply random_choice_in in Hqa.
  rewrite Forall_forall in Hkw.
  destruct (random_choice_total _ g1 (Hkw _ Hqa)) as (w & g2 & ->). eauto.
Qed.

Lemma AddSent_paragraph_perturbed (p p' : JParagraph) (g g' : list nat) :
  Pure.AddSent.paragraph nlp p g = Ok (p', g') ->
  perturbed (addsent_suffix nlp) p p'.
Proof.
  unfold Pure.AddSent.paragraph, bind.
  destruct (Pure.AddSent.sentence nlp (qas p) g) as [[s g1]|e] eqn:Hs;
    [|discriminate].
  destruct (Pure.relocate_all _ (qas p) g1) as [[qs g2]|e] eqn:Hq;
    [|discriminate].
  intros [= <- _]. split; simpl.
  - exists s. split; [|reflexivity]. eapply AddSent_sentence_suffix; eauto.
  - eapply relocate_all_relocated; eauto.
Qed.

Lemma AddSent_paragraph_total (p : JParagraph) (g : list nat) :
  Forall (text_in_context p) (qas p) ->
  qas p <> [] ->
  Forall (fun qa => AddSent.key_words nlp (question qa) <> []) (qas p) ->
  exists p' g', Pure.AddSent.paragraph nlp p g = Ok (p', g').
Proof.
  intros Hin Hne Hkw. unfold Pure.AddSent.paragraph, bind.
  destruct (AddSent_sentence_total p g Hne Hkw) as (s & g1 & ->).
  destruct (relocate_all_total (Pure.AddSent.adv_context p s) (qas p) g1)
    as (qs & ->); [|eauto].
  eapply Forall_impl; [exact Hin|]. intros qa Hqa.
  apply (text_in_context_app p (" " +:+ s) qa Hqa).
Qed.

Lemma AddSent_corpus_perturbed (c c' : JCorpus) (g : list nat) :
  Pure.run (Pure.AddSent.corpus nlp c) g = Ok c' ->
  version c' = "v2.0" /\ paragraphwise (perturbed (addsent_suffix nlp)) c c'.
Proof.
  unfold Pure.run, Pure.AddSent.corpus, bind.
  destruct (Pure.map_rand _ (data c) g) as [[arts g1]|e] eqn:Ha;
    [|discriminate].
  intros [= <-]. split; [reflexivity|]. unfold paragraphwise. simpl.
  eapply map_rand_Forall2; [|exact Ha].
  intros a g2 a' g3. unfold Pure.AddSent.article, bind.
  destruct (Pure.map_rand _ (paragraphs a) g2) as [[ps g4]|e] eqn:Hp;
    [|discriminate].
  intros [= <- _]. simpl.
  eapply map_rand_Forall2; [|exact Hp].
  intros. eapply AddSent_paragraph_perturbed; eauto.
Qed.

Lemma AddSent_corpus_total (c : JCorpus) (g : list nat) :
  every_qa text_in_context c ->
  addsent_ready nlp c ->
  exists c', Pure.run (Pure.AddSent.corpus nlp c) g = Ok c'.
Proof.
  intros Hin Hready. unfold Pure.run, Pure.AddSent.corpus, bind.
  destruct (map_rand_total (Pure.AddSent.article nlp) (data c)) with (g := g)
    as (arts & g1 & ->); [|eauto].
  intros a Ha g2. unfold every_qa in Hin. unfold addsent_ready in Hready.
  rewrite Forall_forall in Hin, Hready.
  specialize (Hin a Ha). specialize (Hready a Ha).
  unfold Pure.AddSent.article, bind.
  destruct (map_rand_total (Pure.AddSent.paragraph nlp) (paragraphs a))
    with (g := g2) as (ps & g3 & ->); [|eauto].
  intros p Hp g4. rewrite Forall_forall in Hin, Hready.
  destruct (Hready p Hp) as [Hne Hkw].
  now apply AddSent_paragraph_total; [apply Hin| |].
Qed.

End WithTagger.

End PureFacts.

(** ** Consequences for completed runs *)

Section Runs.

Lemma Forall2_right {A B} (R : A -> B -> Prop) (P : B -> Prop)
    (xs : list A) (ys : list B) :
  Forall2 R xs ys -> (forall x y, R x y -> P y) -> Forall P ys.
Proof. induction 1; intros HP; constructor; eauto. Qed.

Lemma Forall2_weaken {A B} (R R' : A -> B -> Prop)
    (xs : list A) (ys : list B) :
  Forall2 R xs ys -> (forall x y, R x y -> R' x y) -> Forall2 R' xs ys.
Proof. induction 1; intros HP; constructor; eauto. Qed.

Lemma Forall2_Forall_left {A B} (R R' : A -> B -> Prop) (P : A -> Prop)
    (xs : list A) (ys : list B) :
  Forall2 R xs ys -> Forall P xs ->
  (forall x y, P x -> R x y -> R' x y) -> Forall2 R' xs ys.
Proof.
  induction 1; intros HP Himp; constructor; inversion HP; subst; eauto.
Qed.

Lemma paragraphwise_every_qa (S : JParagraph -> string -> Prop)
    (P : JParagraph -> QAPair -> Prop) (c c' : JCorpus) :
  paragraphwise (perturbed S) c c' ->
  (forall p' qa qa', relocated (context p') qa qa' -> P p' qa') ->
  every_qa P c'.
Proof.
  intros Hpw HP. unfold every_qa.
  eapply Forall2_right; [exact Hpw|]. intros a a' Ha. simpl in Ha.
  eapply Forall2_right; [exact Ha|]. intros p p' [_ Hq].
  eapply Forall2_right; [exact Hq|]. intros qa qa'. apply HP.
Qed.

Lemma paragraphwise_weaken (P Q : JParagraph -> JParagraph -> Prop)
    (c c' : JCorpus) :
  paragraphwise P c c' -> (forall p p', P p p' -> Q p p') ->
  paragraphwise Q c c'.
Proof.
  intros Hpw HPQ. eapply Forall2_weaken; [exact Hpw|]. intros a a' Ha.
  eapply Forall2_weaken; [exact Ha|]. exact HPQ.
Qed.

Lemma paragraphwise_given (P : JParagraph -> QAPair -> Prop)
    (R R' : JParagraph -> JParagraph -> Prop) (c c' : JCorpus) :
  paragraphwise R c c' -> every_qa P c ->
  (forall p p', Forall (P p) (qas p) -> R p p' -> R' p p') ->
  paragraphwise R' c c'.
Proof.
  intros Hpw Hev Himp.
  eapply Forall2_Forall_left; [exact Hpw | exact Hev |].
  intros a a' Hpa Ha. simpl in *.
  eapply Forall2_Forall_left; [exact Ha | exact Hpa |]. exact Himp.
Qed.

Lemma relocated_contained (p' : JParagraph) (qa qa' : QAPair) :
  relocated (context p') qa qa' -> contained p' qa'.
Proof.
  intros [_ H]. unfold contained.
  destruct (answers qa') as [|a0 others]; [exact I|].
  destruct H as (i & -> & [Hocc _]). now apply occurs_at_slice.
Qed.

Lemma relocated_first_located (p' : JParagraph) (qa qa' : QAPair) :
  relocated (context p') qa qa' -> first_located p' qa'.
Proof. intros [_ H]. exact H. Qed.

Lemma perturbed_same_qas (S : JParagraph -> string -> Prop)
    (p p' : JParagraph) :
  perturbed S p p' -> same_qas p p'.
Proof.
  intros [_ Hq]. split.
  - symmetry. eapply Forall2_length; eauto.
  - eapply Forall2_weaken; [exact Hq|]. now intros qa qa' [H _].
Qed.


Lemma first_occurrence_find (sub s : string) (i : nat) :
  first_occurrence sub s i -> PyStr.find s sub = Some i.
Proof.
  intros Hi. destruct (find_occurs s sub) as [j Hj].
  - exists i. apply Hi.
  - rewrite Hj. f_equal.
    eapply first_occurrence_unique; [apply find_Some|]; eauto.
Qed.

Lemma first_occurrence_app (sub s t : string) (i : nat) :
  first_occurrence sub s i -> first_occurrence sub (s +:+ t) i.
Proof.
  intros Hi. apply find_Some, find_app. now apply first_occurrence_find.
Qed.

Lemma first_located_text_in_context (p : JParagraph) (qa : QAPair) :
  first_located p qa -> text_in_context p qa.
Proof.
  unfold first_located, text_in_context.
  destruct (answers qa) as [|a0 others]; [auto|].
  intros (i & _ & [Hocc _]) _. now exists i.
Qed.

(** A question labelled at the first occurrence is left as it is when the
    context only grows at its end. *)
Lemma relocated_unchanged (p : JParagraph) (suffix : string)
    (qa qa' : QAPair) :
  first_located p qa ->
  relocated (context p +:+ suffix) qa qa' ->
  qa' = qa.
Proof.
  intros Hfirst [(Hq & Hi & Himp & Htext & Htail) Hloc].
  destruct qa as [q i imp ans], qa' as [q' i' imp' ans'].
  unfold first_located in Hfirst. simpl in *. subst q' i' imp'. f_equal.
  destruct ans as [|a0 others], ans' as [|a0' others']; try discriminate;
    [reflexivity|].
  simpl in *. injection Htext as Ht _. subst others'. f_equal.
  destruct Hfirst as (n & Hn & Hfo). destruct Hloc as (n' & Hn' & Hfo').
  apply (first_occurrence_app _ _ suffix) in Hfo. rewrite Ht in Hfo'.
  pose proof (first_occurrence_unique _ _ _ _ Hfo Hfo') as <-.
  destruct a0, a0'. simpl in *. congruence.
Qed.

Lemma perturbed_unchanged (S : JParagraph -> string -> Prop)
    (p p' : JParagraph) :
  Forall (first_located p) (qas p) -> perturbed S p p' -> qas p' = qas p.
Proof.
  intros Hfirst [(suffix & _ & Hctx) Hq]. rewrite Hctx in Hq.
  induction Hq as [|qa qa' qs qs' Hrel _ IH]; [reflexivity|].
  inversion Hfirst; subst. f_equal; [|now apply IH].
  eapply (relocated_unchanged p (" " +:+ suffix)); eauto.
Qed.

Lemma answer_starts_same (c c' : JCorpus) :
  paragraphwise (fun p p' => qas p' = qas p) c c' ->
  answer_starts c' = answer_starts c.
Proof.
  unfold paragraphwise, answer_starts. intros H.
  induction H as [|a a' arts arts' Ha _ IH]; [reflexivity|].
  simpl. f_equal; [|exact IH]. clear IH.
  induction Ha as [|p p' ps ps' Hp _ IH]; [reflexivity|].
  simpl. f_equal; [|exact IH]. now rewrite Hp.
Qed.

Lemma every_qa_weaken (P Q : JParagraph -> QAPair -> Prop) (c : JCorpus) :
  every_qa P c -> (forall p qa, P p qa -> Q p qa) -> every_qa Q c.
Proof.
  intros H HPQ. unfold every_qa in *.
  eapply Forall_impl; [exact H|]. intros a Ha.
  eapply Forall_impl; [exact Ha|]. intros p Hp.
  eapply Forall_impl; [exact Hp|]. apply HPQ.
Qed.

End Runs.

(** ** Runs on the test corpora *)

Example addany_paris :
  AddAny.main paris [3; 5]
  = Ok (mkCorpus "v2.0"
          [ mkArticle "France"
              [ mkParagraph
                  ("Paris is the capital of France."
                   +:+ " The local museum is hosting a special exhibition next month."
                   +:+ " A group of researchers published a groundbreaking paper last week.")
                  [ mkQA "What is the capital of France?" (Some "q1")
                         (Some false) [ mkAnswer "Paris" 0 ] ] ] ]).
Proof. vm_compute. reflexivity. Qed.

Example addsent_sky :
  AddSent.process_squad_file table_nlp sky [0; 0]
  = Ok (mkCorpus "v2.0"
          [ mkArticle "Sky"
              [ mkParagraph
                  "The sky is blue. However, color is not related to blue."
                  [ mkQA "What color is the sky?" (Some "q2") (Some false)
                         [ mkAnswer "blue" 11 ] ] ] ]).
Proof. vm_compute. reflexivity. Qed.

(** The question chosen for the sentence has no answer. *)
Example addsent_no_answer :
  AddSent.generate_adversarial_sentence table_nlp
    [mkQA "What color is the sky?" (Some "q8") (Some true) 0]
    (mkState [[]] [0; 1])
  = Ok ("However, sky is not relevant to this context.", mkState [[]] []).
Proof. reflexivity. Qed.

(** A paragraph without questions stops AddSent. *)
Example addsent_no_question :
  AddSent.process_squad_file table_nlp
    (mkCorpus "v2.0" [mkArticle "Empty" [mkParagraph "Nothing is asked." []]])
    [0; 0]
  = Raise IndexError.
Proof. reflexivity. Qed.

(** ** Test corpora satisfy the input conditions *)

Lemma this_is_labelled : every_qa labelled this_is.
Proof.
  repeat constructor. exists 5. split; [reflexivity|].
  exists "This ", " a test.". split; reflexivity.
Qed.

(** ** The claims about the generators *)

(** C1 (context containment).  If every non-empty first answer text of the
    input occurs in the context of its paragraph, then the AddAny generator
    completes, and in the corpus written by either generator every question
    with a non-empty answers list satisfies
    [context[answer_start : answer_start + len(text)] == text] for its first
    answer.  The AddSent generator completes as soon as, in addition, every
    paragraph has a question and every question a key word. *)
Theorem context_containment
    (nlp : string -> list AddSent.Token) (input : JCorpus) (num : nat)
    (seed : list nat) :
  every_qa text_in_context input ->
  (exists out, AddAny.process_squad_file input num seed = Ok out
               /\ every_qa contained out)
  /\ (forall out, AddSent.process_squad_file nlp input seed = Ok out ->
                  every_qa contained out)
  /\ (addsent_ready nlp input ->
      exists out, AddSent.process_squad_file nlp input seed = Ok out).
Proof.
  intros Hin. split_and!.
  - rewrite AddAny_agrees.
    destruct (AddAny_corpus_total num input seed Hin) as [out Hrun].
    exists out. split; [exact Hrun|].
    apply AddAny_corpus_perturbed in Hrun as [_ Hpw].
    eapply paragraphwise_every_qa; [exact Hpw|]. apply relocated_contained.
  - intros out Hrun. rewrite AddSent_agrees in Hrun.
    apply AddSent_corpus_perturbed in Hrun as [_ Hpw].
    eapply paragraphwise_every_qa; [exact Hpw|]. apply relocated_contained.
  - intros Hready. rewrite AddSent_agrees.
    now apply AddSent_corpus_total.
Qed.

Lemma context_containment_witness :
  every_qa text_in_context sky
  /\ (exists out, AddAny.process_squad_file sky 2 [0; 0] = Ok out
                  /\ every_qa contained out)
  /\ (forall out, AddSent.process_squad_file table_nlp sky [0; 0] = Ok out ->
                  every_qa contained out)
  /\ (addsent_ready table_nlp sky ->
      exists out, AddSent.process_squad_file table_nlp sky [0; 0] = Ok out).
Proof.
  assert (Hin : every_qa text_in_context sky).
  { repeat constructor. intros _. exists 11, "The sky is ", ".".
    split; reflexivity. }
  split; [exact Hin|].
  exact (context_containment table_nlp sky 2 [0; 0] Hin).
Defined.

(** C10 (questions preserved).  Under the same input condition, both
    generators keep articles, paragraphs and questions one to one: every
    output paragraph has exactly as many questions as its input paragraph,
    and each output question agrees with the input question at the same
    position on [question], [id], [is_impossible], on the text of every
    answer and on every answer after the first; only the offset of the
    first answer may differ. *)
Theorem qa_pairs_preserved
    (nlp : string -> list AddSent.Token) (input : JCorpus) (num : nat)
    (seed : list nat) :
  every_qa text_in_context input ->
  (exists out, AddAny.process_squad_file input num seed = Ok out
               /\ paragraphwise same_qas input out)
  /\ (forall out, AddSent.process_squad_file nlp input seed = Ok out ->
                  paragraphwise same_qas input out)
  /\ (addsent_ready nlp input ->
      exists out, AddSent.process_squad_file nlp input seed = Ok out).
Proof.
  intros Hin. split_and!.
  - rewrite AddAny_agrees.
    destruct (AddAny_corpus_total num input seed Hin) as [out Hrun].
    exists out. split; [exact Hrun|].
    apply AddAny_corpus_perturbed in Hrun as [_ Hpw].
    eapply paragraphwise_weaken; [exact Hpw|]. apply perturbed_same_qas.
  - intros out Hrun. rewrite AddSent_agrees in Hrun.
    apply AddSent_corpus_perturbed in Hrun as [_ Hpw].
    eapply paragraphwise_weaken; [exact Hpw|]. apply perturbed_same_qas.
  - intros Hready. rewrite AddSent_agrees.
    now apply AddSent_corpus_total.
Qed.

Lemma qa_pairs_preserved_witness :
  every_qa text_in_context sky
  /\ (exists out, AddAny.process_squad_file sky 2 [0; 1] = Ok out
                  /\ paragraphwise same_qas sky out)
  /\ (forall out, AddSent.process_squad_file table_nlp sky [0; 1] = Ok out ->
                  paragraphwise same_qas sky out)
  /\ (addsent_ready table_nlp sky ->
      exists out, AddSent.process_squad_file table_nlp sky [0; 1] = Ok out).
Proof.
  assert (Hin : every_qa text_in_context sky).
  { repeat constructor. intros _. exists 11, "The sky is ", ".".
    split; reflexivity. }
  split; [exact Hin|].
  exact (qa_pairs_preserved table_nlp sky 2 [0; 1] Hin).
Defined.

(** The loop body on a question whose first answer text occurs in the new
    context: the offset written is the first occurrence. *)
Lemma relocate_qa_found (ctx : string) (qa : QA loc)
    (h : list (list Answer)) (g : list nat) (a0 : Answer)
    (others : list Answer) :
  h !! answers qa = Some (a0 :: others) ->
  occurs_in (text a0) ctx ->
  exists i, first_occurrence (text a0) ctx i
            /\ relocate_qa ctx qa (mkState h g)
               = Ok (qa, mkState (<[answers qa :=
                                      mkAnswer (text a0) (Z.of_nat i) :: others]> h)
                                 g).
Proof.
  intros Hl Hocc. destruct (find_occurs _ _ Hocc) as [i Hi].
  exists i. split; [now apply find_Some|].
  unfold relocate_qa, bind, load. simpl. rewrite Hl. simpl. rewrite Hi.
  now destruct qa.
Qed.

(** C4 (first occurrence).  In the corpus written by either generator the
    offset of every first answer is the smallest index at which its text
    occurs in the new context, wherever else the text occurs (the appended
    suffix included); and on a stored question whose first answer text
    occurs in the new context the loop body does write that index. *)
Theorem relocation_first_occurrence :
  (forall (input : JCorpus) (num : nat) (seed : list nat) (out : JCorpus),
      AddAny.process_squad_file input num seed = Ok out ->
      every_qa first_located out)
  /\ (forall (nlp : string -> list AddSent.Token) (input : JCorpus)
             (seed : list nat) (out : JCorpus),
         AddSent.process_squad_file nlp input seed = Ok out ->
         every_qa first_located out)
  /\ (forall (ctx : string) (qa : QA loc) (h : list (list Answer))
             (g : list nat) (a0 : Answer) (others : list Answer),
         h !! answers qa = Some (a0 :: others) ->
         occurs_in (text a0) ctx ->
         exists i, first_occurrence (text a0) ctx i
                   /\ relocate_qa ctx qa (mkState h g)
                      = Ok (qa, mkState
                                  (<[answers qa :=
                                       mkAnswer (text a0) (Z.of_nat i) :: others]> h)
                                  g)).
Proof.
  split_and!.
  - intros input num seed out Hrun. rewrite AddAny_agrees in Hrun.
    apply AddAny_corpus_perturbed in Hrun as [_ Hpw].
    eapply paragraphwise_every_qa; [exact Hpw|]. apply relocated_first_located.
  - intros nlp input seed out Hrun. rewrite AddSent_agrees in Hrun.
    apply AddSent_corpus_perturbed in Hrun as [_ Hpw].
    eapply paragraphwise_every_qa; [exact Hpw|]. apply relocated_first_located.
  - apply relocate_qa_found.
Qed.

(** The suffix appended by AddSent repeats the answer text ["is"]; the offset
    written is still that of the first occurrence, inside ["This"]. *)
Lemma relocation_first_occurrence_witness :
  AddSent.process_squad_file table_nlp this_is [0; 0]
  = Ok (mkCorpus "v2.0"
          [ mkArticle "Test"
              [ mkParagraph
                  "This is a test. However, What is not related to is."
                  [ mkQA "What is this?" (Some "q3") (Some false)
                         [ mkAnswer "is" 2 ];
                    mkQA "Why?" (Some "q4") (Some true) [] ] ] ])
  /\ every_qa first_located
       (mkCorpus "v2.0"
          [ mkArticle "Test"
              [ mkParagraph
                  "This is a test. However, What is not related to is."
                  [ mkQA "What is this?" (Some "q3") (Some false)
                         [ mkAnswer "is" 2 ];
                    mkQA "Why?" (Some "q4") (Some true) [] ] ] ]).
Proof.
  split; [vm_compute; reflexivity|].
  apply (proj1 (proj2 relocation_first_occurrence) table_nlp this_is [0; 0]).
  vm_compute. reflexivity.
Defined.

(** C7, as stated, fails: an answer labelled at a later occurrence of its
    text is moved to the first one although the context only grew at its
    end. *)
Lemma offset_preserved_counterexample :
  ~ (every_qa labelled this_is ->
     forall out, AddAny.process_squad_file this_is 2 [3; 5] = Ok out ->
                 answer_starts out = answer_starts this_is).
Proof.
  intros H. specialize (H this_is_labelled _ eq_refl). discriminate H.
Qed.

Lemma labelled_text_in_context (p : JParagraph) (qa : QAPair) :
  labelled p qa -> text_in_context p qa.
Proof.
  unfold labelled, text_in_context.
  destruct (answers qa) as [|a0 others]; [auto|].
  intros (i & _ & Hocc) _. now exists i.
Qed.

Lemma perturbed_kept_where_first (S : JParagraph -> string -> Prop)
    (p p' : JParagraph) :
  perturbed S p p' -> kept_where_first p p'.
Proof.
  intros [(suffix & _ & Hctx) Hq]. rewrite Hctx in Hq.
  eapply Forall2_weaken; [exact Hq|]. intros qa qa' Hrel Hfirst.
  eapply (relocated_unchanged p (" " +:+ suffix)); eauto.
Qed.

(** C7 (amended).  Appending preserves the offset of every question that is
    labelled at the first occurrence of its first answer text in the
    original context: in a completed run of either generator such a question
    is written unchanged, offset included, whatever the labels of the other
    questions are.  When every first answer of the input is labelled at an
    occurrence of its text, the AddAny generator completes. *)
Theorem offset_preserved_at_first_occurrence
    (nlp : string -> list AddSent.Token) (input : JCorpus) (num : nat)
    (seed : list nat) :
  (forall out,
      AddAny.process_squad_file input num seed = Ok out
      \/ AddSent.process_squad_file nlp input seed = Ok out ->
      paragraphwise kept_where_first input out)
  /\ (every_qa labelled input ->
      exists out, AddAny.process_squad_file input num seed = Ok out).
Proof.
  split.
  - intros out [Hrun|Hrun].
    + rewrite AddAny_agrees in Hrun.
      apply AddAny_corpus_perturbed in Hrun as [_ Hpw].
      eapply paragraphwise_weaken; [exact Hpw|].
      apply perturbed_kept_where_first.
    + rewrite AddSent_agrees in Hrun.
      apply AddSent_corpus_perturbed in Hrun as [_ Hpw].
      eapply paragraphwise_weaken; [exact Hpw|].
      apply perturbed_kept_where_first.
  - intros Hlab. rewrite AddAny_agrees. apply AddAny_corpus_total.
    eapply every_qa_weaken; [exact Hlab|]. apply labelled_text_in_context.
Qed.

(** In [mixed] the answer "test" is labelled at its first occurrence and
    keeps the offset 10, beside the answer "is" that is moved from 5 to 2. *)
Lemma offset_preserved_at_first_occurrence_witness :
  every_qa labelled mixed
  /\ AddAny.process_squad_file mixed 2 [3; 5] = Ok mixed_addany
  /\ paragraphwise kept_where_first mixed mixed_addany
  /\ answer_starts mixed = [[[Some 5%Z; Some 10%Z]]]
  /\ answer_starts mixed_addany = [[[Some 2%Z; Some 10%Z]]].
Proof.
  assert (Hlab : every_qa labelled mixed).
  { repeat constructor.
    - exists 5. split; [reflexivity|].
      exists "This ", " a test.". split; reflexivity.
    - exists 10. split; [reflexivity|].
      exists "This is a ", ".". split; reflexivity. }
  assert (Hrun : AddAny.process_squad_file mixed 2 [3; 5] = Ok mixed_addany).
  { vm_compute. reflexivity. }
  split_and!; [exact Hlab | exact Hrun | | reflexivity | reflexivity].
  exact (proj1 (offset_preserved_at_first_occurrence table_nlp mixed 2 [3; 5])
           mixed_addany (or_introl Hrun)).
Defined.






(** ** AddAny: how many sentences, and which *)

Lemma perturbed_appended (num : nat) (p p' : JParagraph) :
  perturbed (addany_suffix num) p p' -> appended num p p'.
Proof.
  intros [(suffix & (ss & Hlen & Hall & ->) & Hctx) _]. now exists ss.
Qed.










(** ** AddSent: the sentence *)

Section Sentence.

Variable nlp : string -> list AddSent.Token.

Lemma filter_bool_prop {A} (f : A -> bool) (P : A -> Prop)
    `{forall x, Decision (P x)} (xs : list A) :
  (forall x, f x = true <-> P x) -> List.filter f xs = filter P xs.
Proof.
  intros Hf. induction xs as [|x xs IH]; [reflexivity|].
  simpl. rewrite filter_cons. rewrite IH.
  destruct (f x) eqn:Hx, (decide (P x)) as [Hp|Hp]; try reflexivity.
  - exfalso. apply Hp, Hf, Hx.
  - apply Hf in Hp. congruence.
Qed.

Lemma key_words_spec (q : string) :
  AddSent.key_words nlp q = spec_key_words (nlp q).
Proof.
  unfold AddSent.key_words, spec_key_words.
  rewrite (filter_bool_prop _
             (fun t => AddSent.pos_ t = "NOUN" \/ AddSent.pos_ t = "VERB"
                       \/ AddSent.pos_ t = "ADJ")).
  2:{ intros t. simpl. rewrite !orb_true_iff, !String.eqb_eq.
      intuition discriminate. }
  rewrite (filter_bool_prop _ (fun t => AddSent.pos_ t <> "PUNCT")).
  2:{ intros t. rewrite negb_true_iff. apply String.eqb_neq. }
  destruct (filter _ (nlp q)) as [|t ts]; simpl.
  - reflexivity.
  - now destruct (decide (t :: ts = [])).
Qed.

Lemma nonempty_decide (s : string) :
  AddSent.nonempty s = if decide (s = "") then false else true.
Proof. destruct s; reflexivity. Qed.

Lemma sentence_of_spec (h : list (list Answer)) (qa : QA loc) (w : string) :
  Pure.AddSent.sentence_of (Json.dump_qa h qa) w
  = spec_sentence w (stored_answer_text h qa).
Proof.
  unfold Pure.AddSent.sentence_of, spec_sentence, stored_answer_text,
    Pure.AddSent.first_text. simpl.
  rewrite nonempty_decide.
  now destruct (decide (_ = "")).
Qed.

Lemma generate_adversarial_sentence_runs (qas : list (QA loc))
    (h : list (list Answer)) (g : list nat) :
  AddSent.generate_adversarial_sentence nlp qas (mkState h g)
  = match random_choice qas g with
    | Raise e => Raise e
    | Ok (qa, g1) =>
        match random_choice (AddSent.key_words nlp (question qa)) g1 with
        | Raise e => Raise e
        | Ok (w, g2) =>
            Ok (spec_sentence w (stored_answer_text h qa), mkState h g2)
        end
    end.
Proof.
  rewrite generate_adversarial_sentence_agree.
  unfold Pure.AddSent.sentence, bind. rewrite random_choice_map.
  destruct (random_choice qas g) as [[qa g1]|e]; [|reflexivity].
  change (question (Json.dump_qa h qa)) with (question qa).
  destruct (random_choice _ g1) as [[w g2]|e]; [|reflexivity].
  now rewrite sentence_of_spec.
Qed.

End Sentence.

(** C6 (key words and template).  The key words of a question are the texts
    of its tokens tagged [NOUN], [VERB] or [ADJ], and, when there is none,
    the texts of all tokens not tagged [PUNCT].  A sentence returned by
    [generate_adversarial_sentence] is built from one question of the
    paragraph and one of that question's key words: "However, w is not
    related to t." when the question's first answer text t is not empty,
    "However, w is not relevant to this context." otherwise; and a sentence
    is returned whenever the paragraph has a question and every question has
    a key word. *)
Theorem addsent_sentence_template
    (nlp : string -> list AddSent.Token) (qas : list (QA loc))
    (h : list (list Answer)) (g : list nat) :
  (forall q, AddSent.key_words nlp q = spec_key_words (nlp q))
  /\ (forall s st',
         AddSent.generate_adversarial_sentence nlp qas (mkState h g)
         = Ok (s, st') ->
         exists qa w,
           qa ∈ qas
           /\ w ∈ spec_key_words (nlp (question qa))
           /\ s = spec_sentence w (stored_answer_text h qa)
           /\ heap st' = h)
  /\ (qas <> [] ->
      (forall qa, qa ∈ qas -> spec_key_words (nlp (question qa)) <> []) ->
      exists s st',
        AddSent.generate_adversarial_sentence nlp qas (mkState h g)
        = Ok (s, st')).
Proof.
  split_and!.
  - apply key_words_spec.
  - intros s st'. rewrite generate_adversarial_sentence_runs.
    destruct (random_choice qas g) as [[qa g1]|e] eqn:Hqa; [|discriminate].
    destruct (random_choice _ g1) as [[w g2]|e] eqn:Hw; [|discriminate].
    intros [= <- <-]. exists qa, w. rewrite <- key_words_spec.
    split_and!; try reflexivity; eapply random_choice_in; eauto.
  - intros Hne Hkw. rewrite generate_adversarial_sentence_runs.
    destruct (random_choice_total qas g Hne) as (qa & g1 & Hqa).
    rewrite Hqa. apply random_choice_in in Hqa.
    specialize (Hkw qa Hqa). rewrite <- key_words_spec in Hkw.
    destruct (random_choice_total _ g1 Hkw) as (w & g2 & ->). eauto.
Qed.

(** The key words of "What color is the sky?" are "color" and "sky"; with
    "color" chosen and the answer "blue" the sentence is the one of the
    template. *)
Lemma addsent_sentence_template_witness :
  AddSent.key_words table_nlp "What color is the sky?" = ["color"; "sky"]
  /\ AddSent.generate_adversarial_sentence table_nlp
       [mkQA "What color is the sky?" (Some "q2") (Some false) 0]
       (mkState [[mkAnswer "blue" 11]] [0; 0])
     = Ok ("However, color is not related to blue.",
           mkState [[mkAnswer "blue" 11]] [])
  /\ exists qa w,
       qa ∈ [mkQA "What color is the sky?" (Some "q2") (Some false) 0]
       /\ w ∈ spec_key_words (table_nlp (question qa))
       /\ "However, color is not related to blue."
          = spec_sentence w (stored_answer_text [[mkAnswer "blue" 11]] qa)
       /\ heap (mkState [[mkAnswer "blue" 11]] []) = [[mkAnswer "blue" 11]].
Proof.
  split_and!; [reflexivity | reflexivity |].
  apply (proj1 (proj2 (addsent_sentence_template table_nlp
           [mkQA "What color is the sky?" (Some "q2") (Some false) 0]
           [[mkAnswer "blue" 11]] [0; 0]))).
  reflexivity.
Defined.

(** C8, as stated, fails: for a question made of punctuation only both
    passes give no key word, and the exception that ends the generation is
    the [IndexError] of [random.choice] on the empty list, not an
    [EmptyKeyWordSetError] raised by a guard. *)
Lemma empty_key_words_counterexample :
  AddSent.key_words table_nlp "?" = []
  /\ ~ (exists e,
          AddSent.generate_adversarial_sentence table_nlp
            [mkQA "?" (Some "q7") (Some true) 0] (mkState [[]] [0; 0])
          = Raise e
          /\ exn_name e = "EmptyKeyWordSetError").
Proof.
  split; [reflexivity|].
  intros (e & Hrun & Hname). vm_compute in Hrun.
  injection Hrun as <-. discriminate Hname.
Qed.

(** C8 (amended).  When every token of the chosen question is tagged
    [PUNCT] (so that neither pass yields a key word), the sentence generation
    fails with Python's [IndexError], raised by [random.choice] on the empty
    key-word list; no sentence is returned. *)
Theorem empty_key_words_index_error
    (nlp : string -> list AddSent.Token) (qas : list (QA loc))
    (h : list (list Answer)) (g g1 : list nat) (qa : QA loc) :
  random_choice qas g = Ok (qa, g1) ->
  Forall (fun t => AddSent.pos_ t = "PUNCT") (nlp (question qa)) ->
  AddSent.key_words nlp (question qa) = []
  /\ AddSent.generate_adversarial_sentence nlp qas (mkState h g)
     = Raise IndexError.
Proof.
  intros Hqa Hpunct.
  assert (Hkw : AddSent.key_words nlp (question qa) = []).
  { rewrite key_words_spec. unfold spec_key_words.
    assert (Hnone : forall (P : AddSent.Token -> Prop)
                           `{forall t, Decision (P t)},
               (forall t, P t -> AddSent.pos_ t <> "PUNCT") ->
               filter P (nlp (question qa)) = []).
    { intros P HD HP. induction Hpunct as [|t ts Ht _ IH]; [reflexivity|].
      rewrite filter_cons. destruct (decide (P t)) as [Hp|Hp]; [|exact IH].
      now apply HP in Hp. }
    rewrite (Hnone _ _) by (intros t [H|[H|H]]; rewrite H; discriminate).
    rewrite (Hnone _ _) by auto. reflexivity. }
  split; [exact Hkw|].
  rewrite generate_adversarial_sentence_runs, Hqa, Hkw. reflexivity.
Qed.

Lemma empty_key_words_index_error_witness :
  random_choice [mkQA "?" (Some "q7") (Some true) 0] [0; 0]
  = Ok (mkQA "?" (Some "q7") (Some true) 0, [0])
  /\ Forall (fun t => AddSent.pos_ t = "PUNCT") (table_nlp "?")
  /\ AddSent.key_words table_nlp "?" = []
  /\ AddSent.generate_adversarial_sentence table_nlp
       [mkQA "?" (Some "q7") (Some true) 0] (mkState [[]] [0; 0])
     = Raise IndexError.
Proof.
  assert (Hpunct : Forall (fun t => AddSent.pos_ t = "PUNCT") (table_nlp "?")).
  { repeat constructor. }
  split_and!; [reflexivity | exact Hpunct | |];
    apply (empty_key_words_index_error table_nlp
             [mkQA "?" (Some "q7") (Some true) 0] [[]] [0; 0] [0]
             (mkQA "?" (Some "q7") (Some true) 0) eq_refl Hpunct).
Defined.

(** ** The evaluation driver *)

Section Evaluation.

Variable float : Type.
Variable get_answer : string -> string -> string.
Variable calculate_f1_score : string -> string -> float.
Variable calculate_bleu_score : string -> string -> float.
Variable count_grammatical_errors : string -> Z.

Local Abbreviation evaluate_attack :=
  (Evaluate.evaluate_attack float get_answer calculate_f1_score
     calculate_bleu_score count_grammatical_errors).
Local Abbreviation eval_qa :=
  (Evaluate.eval_qa float get_answer calculate_f1_score
     calculate_bleu_score count_grammatical_errors).
Local Abbreviation eval_paragraph :=
  (Evaluate.eval_paragraph float get_answer calculate_f1_score
     calculate_bleu_score count_grammatical_errors).
Local Abbreviation eval_article :=
  (Evaluate.eval_article float get_answer calculate_f1_score
     calculate_bleu_score count_grammatical_errors).
Local Abbreviation row :=
  (spec_row float get_answer calculate_f1_score calculate_bleu_score
     count_grammatical_errors).

Lemma substring_min (n : nat) (s : string) :
  String.substring 0 (Nat.min n (String.length s)) s = String.substring 0 n s.
Proof.
  revert n; induction s as [|c s IH]; intros [|n]; simpl; try reflexivity.
  now rewrite IH.
Qed.

Lemma slice_to_substring (s : string) (n : nat) :
  PyStr.slice_to s n = String.substring 0 n s.
Proof.
  unfold PyStr.slice_to, PyStr.slice, PyStr.adjust.
  change (0 <? 0)%Z with false.
  destruct (Z.ltb_spec (Z.of_nat n) 0); [lia|].
  rewrite Nat2Z.id. change (Z.to_nat 0) with 0.
  rewrite Nat.min_0_l, Nat.sub_0_r. apply substring_min.
Qed.

Lemma contains_occurs (s sub : string) :
  PyStr.contains s sub = true <-> occurs_in sub s.
Proof.
  unfold PyStr.contains. destruct (PyStr.find s sub) as [i|] eqn:Hf.
  - split; [|reflexivity]. intros _. exists i. now apply find_Some in Hf as [].
  - split; [discriminate|]. intros H. now apply find_None in Hf.
Qed.

Lemma scoredb_scored (inst : string * QAPair) :
  scoredb inst = true <-> scored inst.
Proof.
  unfold scoredb, scored. destruct (answers (snd inst)) as [|a0 others].
  - split; [discriminate|]. now intros (? & ? & ? & _).
  - rewrite contains_occurs. split.
    + intros H. now exists a0, others.
    + now intros (? & ? & [= <- <-] & H).
Qed.

Lemma lower_eqb_caseless (s t : string) :
  String.eqb (PyStr.lower s) (PyStr.lower t) = caseless_eqb s t.
Proof.
  revert t; induction s as [|a s IH]; intros [|b t]; simpl; try reflexivity.
  rewrite IH. now destruct (Ascii.eqb _ _).
Qed.

Lemma eval_qa_row (attack_name ctx : string) (results : list (Evaluate.Row float))
    (qa : QAPair) :
  eval_qa attack_name ctx results qa
  = results ++ map (row attack_name) (List.filter scoredb [(ctx, qa)]).
Proof.
  unfold Evaluate.eval_qa, spec_row, scoredb. simpl.
  destruct (answers qa) as [|a0 others] eqn:Ha; simpl.
  - now rewrite app_nil_r.
  - rewrite slice_to_substring.
    destruct (PyStr.contains _ (text a0)); simpl.
    + now rewrite Ha, lower_eqb_caseless.
    + now rewrite app_nil_r.
Qed.

Lemma eval_qas_rows (attack_name ctx : string) (qs : list QAPair)
    (results : list (Evaluate.Row float)) :
  fold_left (eval_qa attack_name ctx) qs results
  = results ++ map (row attack_name)
                   (List.filter scoredb (map (fun qa => (ctx, qa)) qs)).
Proof.
  revert results; induction qs as [|qa qs IH]; intros results.
  - simpl. now rewrite app_nil_r.
  - cbn [fold_left]. rewrite IH, eval_qa_row.
    change (map (fun qa0 => (ctx, qa0)) (qa :: qs))
      with ([(ctx, qa)] ++ map (fun qa0 => (ctx, qa0)) qs).
    now rewrite List.filter_app, map_app, app_assoc.
Qed.

Lemma eval_paragraphs_rows (attack_name : string) (ps : list JParagraph)
    (results : list (Evaluate.Row float)) :
  fold_left (eval_paragraph attack_name) ps results
  = results
    ++ map (row attack_name)
           (List.filter scoredb
              (flat_map (fun p => map (fun qa => (context p, qa)) (qas p)) ps)).
Proof.
  revert results; induction ps as [|p ps IH]; intros results.
  - simpl. now rewrite app_nil_r.
  - cbn [fold_left flat_map]. rewrite IH.
    unfold Evaluate.eval_paragraph at 1. rewrite eval_qas_rows.
    now rewrite List.filter_app, map_app, app_assoc.
Qed.

Lemma eval_articles_rows (attack_name : string) (arts : list JArticle)
    (results : list (Evaluate.Row float)) :
  fold_left (eval_article attack_name) arts results
  = results ++ map (row attack_name) (List.filter scoredb (qa_instances arts)).
Proof.
  revert results; induction arts as [|a arts IH]; intros results.
  - simpl. now rewrite app_nil_r.
  - unfold qa_instances in *. cbn [fold_left flat_map]. rewrite IH.
    unfold Evaluate.eval_article at 1. rewrite eval_paragraphs_rows.
    now rewrite List.filter_app, map_app, app_assoc.
Qed.

(** C9 (evaluation rows).  [evaluate_attack] returns, in the order of the
    corpus, exactly one row for each question that has a non-empty answers
    list and whose first answer text occurs in the first 512 characters of
    its paragraph's context, and nothing for the other questions; it
    always returns.  The [exact_match] of a row is the equality of the
    predicted answer and the ground truth up to case. *)
Theorem evaluation_rows (data : list JArticle) (attack_name : string) :
  evaluate_attack data attack_name
  = map (row attack_name) (List.filter scoredb (qa_instances data))
  /\ (forall inst, scoredb inst = true <-> scored inst)
  /\ (forall r,
         In r (evaluate_attack data attack_name) ->
         Evaluate.row_exact_match float r
         = caseless_eqb (Evaluate.row_predicted_answer float r)
                        (Evaluate.row_ground_truth float r))
  /\ (forall s t,
         caseless_eqb s t = true <-> PyStr.lower s = PyStr.lower t).
Proof.
  assert (Hrows : evaluate_attack data attack_name
                  = map (row attack_name)
                        (List.filter scoredb (qa_instances data))).
  { unfold Evaluate.evaluate_attack. now rewrite eval_articles_rows. }
  split_and!.
  - exact Hrows.
  - apply scoredb_scored.
  - intros r Hr. rewrite Hrows in Hr. apply in_map_iff in Hr as (inst & <- & _).
    reflexivity.
  - intros s t. rewrite <- lower_eqb_caseless. apply String.eqb_eq.
Qed.

End Evaluation.

(** ** The loaded corpus after a run *)

(** C2 fails on the code: [qa.copy()] copies the dict but not the answers
    list it holds, so the offset written for the output lands in the loaded
    input as well.  After a run on [this_is] the local [data] no longer has
    the value that was loaded. *)
Theorem input_corpus_mutated :
  AddAny.data_after this_is 2 [3; 5] = Ok this_is_after
  /\ AddSent.data_after table_nlp this_is [0; 0] = Ok this_is_after
  /\ this_is_after <> this_is
  /\ answer_starts this_is = [[[Some 5%Z; None]]]
  /\ answer_starts this_is_after = [[[Some 2%Z; None]]].
Proof.
  split_and!; try (vm_compute; reflexivity).
  intros H. discriminate H.
Qed.

(* ================================================================== *)
(** * Further properties of the notebooks *)
(* ================================================================== *)

(** ** Shape of the generated corpus *)

Section Shape.

Lemma AddAny_corpus_articles (num : nat) (c c' : JCorpus) (g : list nat) :
  Pure.run (Pure.AddAny.corpus num c) g = Ok c' ->
  articlewise (perturbed (addany_suffix num)) c c'.
Proof.
  unfold Pure.run, Pure.AddAny.corpus, bind.
  destruct (Pure.map_rand _ (data c) g) as [[arts g1]|e] eqn:Ha; [|discriminate].
  intros [= <-]. unfold articlewise. simpl.
  eapply map_rand_Forall2; [|exact Ha].
  intros a g2 a' g3. unfold Pure.AddAny.article, bind.
  destruct (Pure.map_rand _ (paragraphs a) g2) as [[ps g4]|e] eqn:Hp;
    [|discriminate].
  intros [= <- _]. simpl. split; [reflexivity|].
  eapply map_rand_Forall2; [|exact Hp].
  intros. eapply AddAny_paragraph_perturbed; eauto.
Qed.

Lemma AddSent_corpus_articles (nlp : string -> list AddSent.Token)
    (c c' : JCorpus) (g : list nat) :
  Pure.run (Pure.AddSent.corpus nlp c) g = Ok c' ->
  articlewise (perturbed (addsent_suffix nlp)) c c'.
Proof.
  unfold Pure.run, Pure.AddSent.corpus, bind.
  destruct (Pure.map_rand _ (data c) g) as [[arts g1]|e] eqn:Ha; [|discriminate].
  intros [= <-]. unfold articlewise. simpl.
  eapply map_rand_Forall2; [|exact Ha].
  intros a g2 a' g3. unfold Pure.AddSent.article, bind.
  destruct (Pure.map_rand _ (paragraphs a) g2) as [[ps g4]|e] eqn:Hp;
    [|discriminate].
  intros [= <- _]. simpl. split; [reflexivity|].
  eapply map_rand_Forall2; [|exact Hp].
  intros. eapply AddSent_paragraph_perturbed; eauto.
Qed.

Lemma articlewise_weaken (P Q : JParagraph -> JParagraph -> Prop)
    (c c' : JCorpus) :
  articlewise P c c' -> (forall p p', P p p' -> Q p p') -> articlewise Q c c'.
Proof.
  intros H HPQ. eapply Forall2_weaken; [exact H|]. intros a a' [Ht Hp].
  split; [exact Ht|]. eapply Forall2_weaken; eauto.
Qed.

Lemma perturbed_extends (S : JParagraph -> string -> Prop) (p p' : JParagraph) :
  perturbed S p p' -> extends_context p p'.
Proof. intros [(suffix & _ & H) _]. now exists suffix. Qed.

Lemma generated_shape (S : JParagraph -> string -> Prop) (c c' : JCorpus) :
  articlewise (perturbed S) c c' ->
  length (data c') = length (data c)
  /\ articlewise (fun p p' => extends_context p p'
                              /\ length (qas p') = length (qas p)) c c'.
Proof.
  intros H. split.
  - symmetry. eapply Forall2_length. exact H.
  - eapply articlewise_weaken; [exact H|]. intros p p' Hp. split.
    + eapply perturbed_extends; eauto.
    + now apply perturbed_same_qas in Hp as [Hlen _].
Qed.

End Shape.

(** X1 (shape of the output).  A completed run of either generator writes
    the version "v2.0" whatever the input version was, the same number of
    articles with the same titles in the same order, the same number of
    paragraphs in each article and of questions in each paragraph; and every
    new context is the old context followed by a space and the appended
    text. *)
Theorem generated_corpus_shape
    (nlp : string -> list AddSent.Token) (input : JCorpus) (num : nat)
    (seed : list nat) (out : JCorpus) :
  AddAny.process_squad_file input num seed = Ok out
  \/ AddSent.process_squad_file nlp input seed = Ok out ->
  version out = "v2.0"
  /\ length (data out) = length (data input)
  /\ articlewise (fun p p' => extends_context p p'
                              /\ length (qas p') = length (qas p)) input out.
Proof.
  intros [Hrun|Hrun].
  - rewrite AddAny_agrees in Hrun.
    pose proof (AddAny_corpus_perturbed _ _ _ _ Hrun) as [Hv _].
    apply AddAny_corpus_articles, generated_shape in Hrun. tauto.
  - rewrite AddSent_agrees in Hrun.
    pose proof (AddSent_corpus_perturbed _ _ _ _ Hrun) as [Hv _].
    apply AddSent_corpus_articles, generated_shape in Hrun. tauto.
Qed.

Lemma generated_corpus_shape_witness :
  (AddAny.process_squad_file (mkCorpus "1.1" (data this_is)) 0 [0; 0]
   = Ok this_is_addsent
   \/ AddSent.process_squad_file table_nlp (mkCorpus "1.1" (data this_is)) [0; 0]
      = Ok this_is_addsent)
  /\ version this_is_addsent = "v2.0"
  /\ length (data this_is_addsent) = length (data (mkCorpus "1.1" (data this_is)))
  /\ articlewise (fun p p' => extends_context p p'
                              /\ length (qas p') = length (qas p))
                 (mkCorpus "1.1" (data this_is)) this_is_addsent.
Proof.
  assert (Hrun : AddAny.process_squad_file (mkCorpus "1.1" (data this_is)) 0 [0; 0]
                 = Ok this_is_addsent
                 \/ AddSent.process_squad_file table_nlp
                      (mkCorpus "1.1" (data this_is)) [0; 0]
                    = Ok this_is_addsent).
  { right. vm_compute. reflexivity. }
  split; [exact Hrun|].
  exact (generated_corpus_shape table_nlp _ 0 [0; 0] _ Hrun).
Defined.

(** ** Questions without answers, and answers found in the original passage *)

Section Original.

Lemma relocated_passthrough (ctx : string) (qa qa' : QAPair) :
  relocated ctx qa qa' -> answers qa = [] -> qa' = qa.
Proof.
  intros [(Hq & Hi & Himp & Htext & _) _] Hnil.
  destruct qa as [q i imp ans], qa' as [q' i' imp' ans']. simpl in *.
  subst. destruct ans'; [reflexivity | discriminate].
Qed.

Lemma perturbed_passthrough (S : JParagraph -> string -> Prop)
    (p p' : JParagraph) :
  perturbed S p p' -> passthrough p p'.
Proof.
  intros [_ Hq]. eapply Forall2_weaken; [exact Hq|].
  intros qa qa'. apply relocated_passthrough.
Qed.

Lemma relocated_in_original (p : JParagraph) (suffix : string)
    (qa qa' : QAPair) :
  relocated (context p +:+ suffix) qa qa' ->
  match answers qa, answers qa' with
  | [], [] => True
  | a0 :: _, a0' :: _ =>
      occurs_in (text a0) (context p) ->
      exists i,
        answer_start a0' = Z.of_nat i
        /\ first_occurrence (text a0) (context p) i
        /\ i + String.length (text a0) <= String.length (context p)
  | _, _ => False
  end.
Proof.
  intros [(_ & _ & _ & Htext & _) Hloc].
  destruct (answers qa) as [|a0 others], (answers qa') as [|a0' others'];
    try discriminate; [exact I|].
  injection Htext as Ht _. intros Hocc.
  destruct (find_occurs _ _ Hocc) as [i Hi]. apply find_Some in Hi.
  destruct Hloc as (i' & Hstart & Hfirst'). rewrite Ht in Hfirst'.
  pose proof (first_occurrence_app _ _ suffix _ Hi) as Hfirst.
  pose proof (first_occurrence_unique _ _ _ _ Hfirst Hfirst') as ->.
  exists i'. split_and!; auto. apply occurs_at_bound, Hi.
Qed.

Lemma perturbed_located_in_original (S : JParagraph -> string -> Prop)
    (p p' : JParagraph) :
  perturbed S p p' -> located_in_original p p'.
Proof.
  intros [(suffix & _ & Hctx) Hq]. rewrite Hctx in Hq.
  eapply Forall2_weaken; [exact Hq|]. intros qa qa'.
  apply (relocated_in_original p (" " +:+ suffix)).
Qed.

End Original.

(** X2 (questions without answers pass through).  In a completed run of
    either generator every question whose answers list is empty is written
    exactly as it was read, at the same position. *)
Theorem empty_answers_pass_through
    (nlp : string -> list AddSent.Token) (input : JCorpus) (num : nat)
    (seed : list nat) (out : JCorpus) :
  AddAny.process_squad_file input num seed = Ok out
  \/ AddSent.process_squad_file nlp input seed = Ok out ->
  paragraphwise passthrough input out.
Proof.
  intros [Hrun|Hrun].
  - rewrite AddAny_agrees in Hrun.
    apply AddAny_corpus_perturbed in Hrun as [_ Hpw].
    eapply paragraphwise_weaken; [exact Hpw|]. apply perturbed_passthrough.
  - rewrite AddSent_agrees in Hrun.
    apply AddSent_corpus_perturbed in Hrun as [_ Hpw].
    eapply paragraphwise_weaken; [exact Hpw|]. apply perturbed_passthrough.
Qed.

Lemma empty_answers_pass_through_witness :
  (AddAny.process_squad_file this_is 0 [0; 0] = Ok this_is_addsent
   \/ AddSent.process_squad_file table_nlp this_is [0; 0] = Ok this_is_addsent)
  /\ paragraphwise passthrough this_is this_is_addsent.
Proof.
  assert (Hrun : AddAny.process_squad_file this_is 0 [0; 0] = Ok this_is_addsent
                 \/ AddSent.process_squad_file table_nlp this_is [0; 0]
                    = Ok this_is_addsent).
  { right. vm_compute. reflexivity. }
  split; [exact Hrun|].
  exact (empty_answers_pass_through table_nlp this_is 0 [0; 0] _ Hrun).
Defined.

(** X3 (answers are found in the original passage).  In a completed run of
    either generator, a question whose first answer text occurs in the
    original context gets the offset of the first occurrence of that text
    in the original context, and the span ends inside the original context:
    the appended text never attracts such an answer, whatever the offset in
    the input was.  A question with answers keeps answers. *)
Theorem relocation_stays_in_original
    (nlp : string -> list AddSent.Token) (input : JCorpus) (num : nat)
    (seed : list nat) (out : JCorpus) :
  AddAny.process_squad_file input num seed = Ok out
  \/ AddSent.process_squad_file nlp input seed = Ok out ->
  paragraphwise located_in_original input out.
Proof.
  intros [Hrun|Hrun].
  - rewrite AddAny_agrees in Hrun.
    apply AddAny_corpus_perturbed in Hrun as [_ Hpw].
    eapply paragraphwise_weaken; [exact Hpw|].
    apply perturbed_located_in_original.
  - rewrite AddSent_agrees in Hrun.
    apply AddSent_corpus_perturbed in Hrun as [_ Hpw].
    eapply paragraphwise_weaken; [exact Hpw|].
    apply perturbed_located_in_original.
Qed.

Lemma relocation_stays_in_original_witness :
  (AddAny.process_squad_file this_is 0 [0; 0] = Ok this_is_addsent
   \/ AddSent.process_squad_file table_nlp this_is [0; 0] = Ok this_is_addsent)
  /\ paragraphwise located_in_original this_is this_is_addsent.
Proof.
  assert (Hrun : AddAny.process_squad_file this_is 0 [0; 0] = Ok this_is_addsent
                 \/ AddSent.process_squad_file table_nlp this_is [0; 0]
                    = Ok this_is_addsent).
  { right. vm_compute. reflexivity. }
  split; [exact Hrun|].
  exact (relocation_stays_in_original table_nlp this_is 0 [0; 0] _ Hrun).
Defined.

(** ** Generating from a generated corpus *)

Section Again.

Lemma AddAny_first_located (input : JCorpus) (num : nat) (seed : list nat)
    (out : JCorpus) :
  AddAny.process_squad_file input num seed = Ok out -> every_qa first_located out.
Proof.
  intros Hrun. rewrite AddAny_agrees in Hrun.
  apply AddAny_corpus_perturbed in Hrun as [_ Hpw].
  eapply paragraphwise_every_qa; [exact Hpw|]. apply relocated_first_located.
Qed.

Lemma AddSent_first_located (nlp : string -> list AddSent.Token)
    (input : JCorpus) (seed : list nat) (out : JCorpus) :
  AddSent.process_squad_file nlp input seed = Ok out ->
  every_qa first_located out.
Proof.
  intros Hrun. rewrite AddSent_agrees in Hrun.
  apply AddSent_corpus_perturbed in Hrun as [_ Hpw].
  eapply paragraphwise_every_qa; [exact Hpw|]. apply relocated_first_located.
Qed.

Lemma first_located_AddAny_keeps (c : JCorpus) (num : nat) (seed : list nat) :
  every_qa first_located c ->
  exists out, AddAny.process_squad_file c num seed = Ok out
              /\ paragraphwise (fun p p' => qas p' = qas p) c out.
Proof.
  intros Hfirst.
  assert (Hin : every_qa text_in_context c).
  { eapply every_qa_weaken; [exact Hfirst|].
    apply first_located_text_in_context. }
  rewrite AddAny_agrees.
  destruct (AddAny_corpus_total num c seed Hin) as [out Hrun].
  exists out. split; [exact Hrun|].
  apply AddAny_corpus_perturbed in Hrun as [_ Hpw].
  eapply paragraphwise_given; [exact Hpw | exact Hfirst |].
  intros p p'. apply perturbed_unchanged.
Qed.

Lemma first_located_AddSent_keeps (nlp : string -> list AddSent.Token)
    (c : JCorpus) (seed : list nat) (out : JCorpus) :
  every_qa first_located c ->
  AddSent.process_squad_file nlp c seed = Ok out ->
  paragraphwise (fun p p' => qas p' = qas p) c out.
Proof.
  intros Hfirst Hrun. rewrite AddSent_agrees in Hrun.
  apply AddSent_corpus_perturbed in Hrun as [_ Hpw].
  eapply paragraphwise_given; [exact Hpw | exact Hfirst |].
  intros p p'. apply perturbed_unchanged.
Qed.

End Again.

(** X4 (a second pass changes no question).  Take the corpus written by a
    completed run of either generator and run a generator on it again, with
    any parameters: AddAny always completes on it, and the second output has
    the questions of the first, offsets included; only the contexts grow. *)
Theorem second_pass_keeps_questions
    (nlp : string -> list AddSent.Token) (input : JCorpus) (num : nat)
    (seed : list nat) (out : JCorpus) :
  AddAny.process_squad_file input num seed = Ok out
  \/ AddSent.process_squad_file nlp input seed = Ok out ->
  (forall num' seed',
      exists out', AddAny.process_squad_file out num' seed' = Ok out'
                   /\ paragraphwise (fun p p' => qas p' = qas p) out out')
  /\ (forall nlp' seed' out',
         AddSent.process_squad_file nlp' out seed' = Ok out' ->
         paragraphwise (fun p p' => qas p' = qas p) out out').
Proof.
  intros Hrun.
  assert (Hfirst : every_qa first_located out).
  { destruct Hrun as [Hrun|Hrun];
      [eapply AddAny_first_located | eapply AddSent_first_located]; eauto. }
  split.
  - intros num' seed'. now apply first_located_AddAny_keeps.
  - intros nlp' seed' out'. now apply first_located_AddSent_keeps.
Qed.

Lemma second_pass_keeps_questions_witness :
  (AddAny.process_squad_file this_is 0 [0; 0] = Ok this_is_addsent
   \/ AddSent.process_squad_file table_nlp this_is [0; 0] = Ok this_is_addsent)
  /\ (forall num' seed',
         exists out', AddAny.process_squad_file this_is_addsent num' seed' = Ok out'
                      /\ paragraphwise (fun p p' => qas p' = qas p)
                                       this_is_addsent out')
  /\ (forall nlp' seed' out',
         AddSent.process_squad_file nlp' this_is_addsent seed' = Ok out' ->
         paragraphwise (fun p p' => qas p' = qas p) this_is_addsent out').
Proof.
  assert (Hrun : AddAny.process_squad_file this_is 0 [0; 0] = Ok this_is_addsent
                 \/ AddSent.process_squad_file table_nlp this_is [0; 0]
                    = Ok this_is_addsent).
  { right. vm_compute. reflexivity. }
  split; [exact Hrun|].
  exact (second_pass_keeps_questions table_nlp this_is 0 [0; 0] _ Hrun).
Defined.

(** ** Paragraphs without questions *)

Section NoQuestion.


Variable nlp : string -> list AddSent.Token.






End NoQuestion.



(** ** Key words and the failure of the sentence generation *)

Section KeyWords.

Variable nlp : string -> list AddSent.Token.

Lemma filter_nil_Forall {A} (P : A -> Prop) `{forall x, Decision (P x)}
    (xs : list A) :
  filter P xs = [] <-> Forall (fun x => ~ P x) xs.
Proof.
  induction xs as [|x xs IH]; [split; [constructor | reflexivity]|].
  rewrite filter_cons. destruct (decide (P x)) as [Hp|Hp].
  - split; [discriminate|]. intros HF. inversion HF; subst. contradiction.
  - rewrite IH. split; [now constructor|]. intros HF. now inversion HF.
Qed.

Lemma key_words_nil (q : string) :
  AddSent.key_words nlp q = []
  <-> Forall (fun t => AddSent.pos_ t = "PUNCT") (nlp q).
Proof.
  rewrite key_words_spec. unfold spec_key_words.
  destruct (decide (filter _ (nlp q) = [])) as [Hc|Hc].
  - split.
    + intros Hm. apply map_eq_nil in Hm. apply filter_nil_Forall in Hm.
      eapply Forall_impl; [exact Hm|]. intros t Ht. simpl in Ht.
      destruct (decide (AddSent.pos_ t = "PUNCT")); [assumption|contradiction].
    + intros HF. assert (Hn : filter (fun t => AddSent.pos_ t <> "PUNCT") (nlp q) = []).
      { apply filter_nil_Forall. eapply Forall_impl; [exact HF|].
        intros t Ht Hne. simpl in *. contradiction. }
      now rewrite Hn.
  - split.
    + intros Hm. apply map_eq_nil in Hm. contradiction.
    + intros HF. exfalso. apply Hc. apply filter_nil_Forall.
      eapply Forall_impl; [exact HF|].
      intros t Ht [H|[H|H]]; simpl in *; congruence.
Qed.

Lemma key_words_tokens (q w : string) :
  w ∈ AddSent.key_words nlp q ->
  exists t, t ∈ nlp q /\ AddSent.tok_text t = w /\ AddSent.pos_ t <> "PUNCT".
Proof.
  rewrite key_words_spec. unfold spec_key_words.
  destruct (decide (filter _ (nlp q) = [])) as [Hc|Hc];
    intros Hw; apply list_elem_of_In, in_map_iff in Hw as (t & Ht & Hin);
    apply list_elem_of_In, list_elem_of_filter in Hin as [Hp Hin];
    exists t; split_and!; auto.
  destruct Hp as [H|[H|H]]; rewrite H; discriminate.
Qed.

Lemma key_words_length (q : string) :
  length (AddSent.key_words nlp q) <= length (nlp q).
Proof.
  rewrite key_words_spec. unfold spec_key_words.
  destruct (decide (filter _ (nlp q) = [])); rewrite length_map;
    apply length_filter.
Qed.

End KeyWords.

(** X6 (key words come from the question and are never punctuation).
    Every key word is the text of a token of the question that is not
    tagged [PUNCT]; there are at most as many key words as tokens; and a
    question has no key word exactly when all its tokens (if any) are tagged
    [PUNCT]. *)
Theorem key_words_of_question
    (nlp : string -> list AddSent.Token) (q : string) :
  (forall w, w ∈ AddSent.key_words nlp q ->
             exists t, t ∈ nlp q /\ AddSent.tok_text t = w
                       /\ AddSent.pos_ t <> "PUNCT")
  /\ length (AddSent.key_words nlp q) <= length (nlp q)
  /\ (AddSent.key_words nlp q = []
      <-> Forall (fun t => AddSent.pos_ t = "PUNCT") (nlp q)).
Proof.
  split_and!.
  - apply key_words_tokens.
  - apply key_words_length.
  - apply key_words_nil.
Qed.

(** X7 (when the sentence generation fails).
    [generate_adversarial_sentence] raises nothing but [IndexError], and it
    raises exactly when the paragraph has no question or all tokens of the
    question drawn are tagged [PUNCT]. *)
Theorem sentence_generation_failure
    (nlp : string -> list AddSent.Token) (qas : list (QA loc))
    (h : list (list Answer)) (g : list nat) (e : exn) :
  AddSent.generate_adversarial_sentence nlp qas (mkState h g) = Raise e
  <-> e = IndexError
      /\ (qas = []
          \/ exists qa g1,
               random_choice qas g = Ok (qa, g1)
               /\ Forall (fun t => AddSent.pos_ t = "PUNCT")
                         (nlp (question qa))).
Proof.
  rewrite generate_adversarial_sentence_runs. split.
  - destruct (random_choice qas g) as [[qa g1]|e1] eqn:Hqa.
    + destruct (random_choice _ g1) as [[w g2]|e2] eqn:Hw; [discriminate|].
      intros [= <-]. apply random_choice_raises in Hw as [Hnil ->].
      split; [reflexivity|]. right. exists qa, g1. split; [reflexivity|].
      now apply key_words_nil.
    + intros [= <-]. apply random_choice_raises in Hqa as [-> ->]. auto.
  - intros [-> [->|(qa & g1 & -> & HF)]]; [reflexivity|].
    apply key_words_nil in HF. now rewrite HF.
Qed.

(** ** AddAny without sentences *)

(** X8 (AddAny with [num_sentences = 0]).  With no sentence to append a
    completed run still changes every context: each one gains exactly one
    trailing space. *)
Theorem addany_zero_sentences (input : JCorpus) (seed : list nat)
    (out : JCorpus) :
  AddAny.process_squad_file input 0 seed = Ok out ->
  paragraphwise (fun p p' => context p' = context p +:+ " ") input out.
Proof.
  intros Hrun. rewrite AddAny_agrees in Hrun.
  apply AddAny_corpus_perturbed in Hrun as [_ Hpw].
  eapply paragraphwise_weaken; [exact Hpw|]. intros p p' Hp.
  apply perturbed_appended in Hp as (ss & Hlen & _ & ->).
  destruct ss; [reflexivity | discriminate].
Qed.

Lemma addany_zero_sentences_witness :
  AddAny.process_squad_file paris 0 [3; 5]
  = Ok (mkCorpus "v2.0"
          [ mkArticle "France"
              [ mkParagraph "Paris is the capital of France. "
                  [ mkQA "What is the capital of France?" (Some "q1")
                         (Some false) [ mkAnswer "Paris" 0 ] ] ] ])
  /\ paragraphwise (fun p p' => context p' = context p +:+ " ") paris
       (mkCorpus "v2.0"
          [ mkArticle "France"
              [ mkParagraph "Paris is the capital of France. "
                  [ mkQA "What is the capital of France?" (Some "q1")
                         (Some false) [ mkAnswer "Paris" 0 ] ] ] ]).
Proof.
  assert (Hrun : AddAny.process_squad_file paris 0 [3; 5]
                 = Ok (mkCorpus "v2.0"
          [ mkArticle "France"
              [ mkParagraph "Paris is the capital of France. "
                  [ mkQA "What is the capital of France?" (Some "q1")
                         (Some false) [ mkAnswer "Paris" 0 ] ] ] ])).
  { vm_compute. reflexivity. }
  split; [exact Hrun|].
  exact (addany_zero_sentences paris [3; 5] _ Hrun).
Defined.

(** ** Counting tokens *)

Section CounterFacts.

Local Abbreviation count := (count_occ string_dec).

Lemma get_incr (c : Metrics.Counter) (x k : string) :
  Metrics.get (Metrics.incr c x) k
  = if decide (x = k) then S (Metrics.get c k) else Metrics.get c k.
Proof.
  induction c as [|[k' n] c IH]; simpl.
  - destruct (String.eqb_spec x k), (decide (x = k)); congruence.
  - destruct (String.eqb_spec k' x) as [->|Hne]; simpl.
    + destruct (String.eqb_spec x k), (decide (x = k)); congruence.
    + destruct (String.eqb_spec k' k) as [->|Hne']; [|exact IH].
      destruct (decide (x = k)); congruence.
Qed.

Lemma keys_incr (c : Metrics.Counter) (x : string) :
  map fst (Metrics.incr c x)
  = if decide (x ∈ map fst c) then map fst c else map fst c ++ [x].
Proof.
  induction c as [|[k' n] c IH]; simpl.
  - destruct (decide (x ∈ [])) as [H|_]; [inversion H | reflexivity].
  - destruct (String.eqb_spec k' x) as [->|Hne]; simpl.
    + destruct (decide (x ∈ x :: map fst c)) as [_|H]; [reflexivity|].
      exfalso. apply H. constructor.
    + rewrite IH. destruct (decide (x ∈ map fst c)) as [Hin|Hnin].
      * destruct (decide (x ∈ k' :: map fst c)) as [_|H]; [reflexivity|].
        exfalso. apply H. now constructor.
      * destruct (decide (x ∈ k' :: map fst c)) as [H|_]; [|reflexivity].
        apply elem_of_cons in H as [->|H]; contradiction.
Qed.

Lemma sum_incr (c : Metrics.Counter) (x : string) :
  sum_list (map snd (Metrics.incr c x)) = S (sum_list (map snd c)).
Proof.
  induction c as [|[k' n] c IH]; simpl; [reflexivity|].
  destruct (String.eqb k' x); simpl; [reflexivity|].
  rewrite IH. unfold id. lia.
Qed.

Lemma count_elements_snoc (ts : list string) (x : string) :
  Metrics.count_elements (ts ++ [x])
  = Metrics.incr (Metrics.count_elements ts) x.
Proof. unfold Metrics.count_elements. now rewrite fold_left_app. Qed.

Lemma count_snoc (ts : list string) (x k : string) :
  count (ts ++ [x]) k = if decide (x = k) then S (count ts k) else count ts k.
Proof.
  rewrite count_occ_app. simpl.
  destruct (string_dec x k), (decide (x = k)); try congruence; lia.
Qed.

(** What [Counter(tokens)] holds. *)
Lemma count_elements_spec (ts : list string) :
  NoDup (map fst (Metrics.count_elements ts))
  /\ (forall k, Metrics.get (Metrics.count_elements ts) k = count ts k)
  /\ (forall k, k ∈ map fst (Metrics.count_elements ts) <-> k ∈ ts)
  /\ sum_list (map snd (Metrics.count_elements ts)) = length ts.
Proof.
  induction ts as [|x ts (Hnd & Hget & Hkeys & Hsum)] using rev_ind.
  - split_and!; [constructor | reflexivity | reflexivity | reflexivity].
  - rewrite count_elements_snoc. split_and!.
    + rewrite keys_incr. destruct (decide (x ∈ _)) as [Hin|Hnin]; [exact Hnd|].
      apply NoDup_app. split_and!; [exact Hnd | | apply NoDup_singleton].
      intros k Hk Hx. apply list_elem_of_singleton in Hx as ->. contradiction.
    + intros k. rewrite get_incr, count_snoc, Hget. reflexivity.
    + intros k. rewrite keys_incr, elem_of_app, list_elem_of_singleton.
      destruct (decide (x ∈ _)) as [Hin|Hnin].
      * rewrite Hkeys. split; [auto|]. intros [H| ->]; [exact H|].
        now apply Hkeys.
      * rewrite elem_of_app, list_elem_of_singleton, Hkeys. reflexivity.
    + rewrite sum_incr, Hsum, length_app. simpl. lia.
Qed.

Lemma get_entry (c : Metrics.Counter) (k : string) (n : nat) :
  NoDup (map fst c) -> (k, n) ∈ c -> Metrics.get c k = n.
Proof.
  induction c as [|[k' n'] c IH]; intros Hnd Hin; [inversion Hin|].
  simpl in *. apply NoDup_cons in Hnd as [Hk' Hnd].
  apply elem_of_cons in Hin as [[= -> ->]|Hin].
  - now rewrite String.eqb_refl.
  - destruct (String.eqb_spec k' k) as [->|_]; [|now apply IH].
    exfalso. apply Hk'. apply list_elem_of_In, in_map_iff.
    exists (k, n). split; [reflexivity | now apply list_elem_of_In].
Qed.

(** The sum of the values of [a & b], entry by entry of [a]. *)
Lemma sum_intersection (a b : Metrics.Counter) :
  sum_list (map snd (Metrics.intersection a b))
  = sum_list_with (fun e => Nat.min (snd e) (Metrics.get b (fst e))) a.
Proof.
  induction a as [|[k n] a IH]; [reflexivity|]. simpl.
  assert (Hmin : (if n <? Metrics.get b k then n else Metrics.get b k)
                 = Nat.min n (Metrics.get b k)).
  { destruct (Nat.ltb_spec n (Metrics.get b k)); lia. }
  rewrite Hmin. destruct (Nat.ltb_spec 0 (Nat.min n (Metrics.get b k))); simpl.
  - rewrite IH. reflexivity.
  - rewrite IH. lia.
Qed.

Lemma sum_entries_keys (c : Metrics.Counter) (F : string -> nat -> nat) :
  NoDup (map fst c) ->
  sum_list_with (fun e => F (fst e) (snd e)) c
  = sum_list_with (fun k => F k (Metrics.get c k)) (map fst c).
Proof.
  induction c as [|[k n] c IH]; intros Hnd; [reflexivity|].
  simpl in *. apply NoDup_cons in Hnd as [Hk Hnd].
  rewrite String.eqb_refl. f_equal. rewrite (IH Hnd).
  clear IH. induction (map fst c) as [|k' ks IHk]; [reflexivity|].
  simpl. apply not_elem_of_cons in Hk as [Hne Hk].
  destruct (String.eqb_spec k k') as [->|_]; [congruence|].
  f_equal. apply IHk; [exact Hk | now apply NoDup_cons in Hnd as []].
Qed.

Lemma sum_ext {A} (F G : A -> nat) (xs : list A) :
  (forall x, F x = G x) -> sum_list_with F xs = sum_list_with G xs.
Proof.
  intros H. induction xs as [|x xs IH]; simpl; [reflexivity|].
  now rewrite H, IH.
Qed.

(** [num_same] as a sum over the distinct tokens of the prediction. *)
Lemma common_sum (p g : list string) :
  sum_list (map snd (Metrics.intersection (Metrics.count_elements p)
                                          (Metrics.count_elements g)))
  = sum_list_with (fun k => Nat.min (count p k) (count g k))
                  (map fst (Metrics.count_elements p)).
Proof.
  destruct (count_elements_spec p) as (Hndp & Hgetp & _ & _).
  destruct (count_elements_spec g) as (_ & Hgetg & _ & _).
  rewrite sum_intersection.
  rewrite (sum_entries_keys _ (fun k n => Nat.min n (Metrics.get _ k)) Hndp).
  apply sum_ext. intros k. now rewrite Hgetp, Hgetg.
Qed.

Lemma sum_zero {A} (F : A -> nat) (xs : list A) :
  sum_list_with F xs = 0 <-> forall x, x ∈ xs -> F x = 0.
Proof.
  induction xs as [|x xs IH]; simpl.
  - split; [intros _ x Hx; inversion Hx | reflexivity].
  - split.
    + intros H y Hy. apply elem_of_cons in Hy as [->|Hy]; [lia|].
      apply IH; [lia | exact Hy].
    + intros H. rewrite (H x) by constructor.
      apply IH. intros y Hy. apply H. now constructor.
Qed.

Lemma sum_filter_support {A} `{EqDecision A} (F : A -> nat) (P : A -> Prop)
    `{forall x, Decision (P x)} (xs : list A) :
  (forall x, x ∈ xs -> ~ P x -> F x = 0) ->
  sum_list_with F xs = sum_list_with F (filter P xs).
Proof.
  induction xs as [|x xs IH]; intros Hz; [reflexivity|].
  rewrite filter_cons. simpl.
  assert (Hxs : forall y, y ∈ xs -> ~ P y -> F y = 0).
  { intros y Hy. apply Hz. now constructor. }
  destruct (decide (P x)) as [Hp|Hp]; simpl.
  - now rewrite IH.
  - rewrite (Hz x) by (auto; constructor). now rewrite IH.
Qed.

Lemma common_sum_sym (p g : list string) :
  sum_list_with (fun k => Nat.min (count p k) (count g k))
                (map fst (Metrics.count_elements p))
  = sum_list_with (fun k => Nat.min (count g k) (count p k))
                  (map fst (Metrics.count_elements g)).
Proof.
  destruct (count_elements_spec p) as (Hndp & _ & Hkp & _).
  destruct (count_elements_spec g) as (Hndg & _ & Hkg & _).
  set (kp := map fst (Metrics.count_elements p)) in *.
  set (kg := map fst (Metrics.count_elements g)) in *.
  rewrite (sum_filter_support _ (fun k => k ∈ kg) kp).
  2:{ intros k _ Hk. rewrite Hkg in Hk.
      rewrite list_elem_of_In in Hk.
      apply (count_occ_not_In string_dec) in Hk. rewrite Hk. lia. }
  rewrite (sum_filter_support _ (fun k => k ∈ kp) kg).
  2:{ intros k _ Hk. rewrite Hkp in Hk.
      rewrite list_elem_of_In in Hk.
      apply (count_occ_not_In string_dec) in Hk. rewrite Hk. lia. }
  assert (Hperm : filter (fun k => k ∈ kg) kp ≡ₚ filter (fun k => k ∈ kp) kg).
  { apply NoDup_Permutation; try now apply NoDup_filter.
    intros k. rewrite !list_elem_of_filter. tauto. }
  rewrite Hperm. apply sum_ext. intros k. lia.
Qed.

Lemma sum_keys_counts (p : list string) :
  sum_list_with (fun k => count p k) (map fst (Metrics.count_elements p))
  = length p.
Proof.
  destruct (count_elements_spec p) as (Hnd & Hget & _ & Hsum).
  rewrite <- Hsum.
  pose proof (sum_entries_keys (Metrics.count_elements p) (fun _ n => n) Hnd)
    as H. simpl in H.
  assert (Hl : forall c : Metrics.Counter,
             sum_list (map snd c) = sum_list_with (fun e => snd e) c).
  { intros c. induction c as [|e c IH]; [reflexivity|].
    simpl. now rewrite IH. }
  rewrite Hl, H. apply sum_ext. intros k. now rewrite Hget.
Qed.

Lemma sum_le {A} (F G : A -> nat) (xs : list A) :
  (forall x, F x <= G x) -> sum_list_with F xs <= sum_list_with G xs.
Proof.
  intros H. induction xs as [|x xs IH]; simpl; [lia|].
  specialize (H x). lia.
Qed.

End CounterFacts.

(** ** The F1 score and the grammar estimate *)

Section MetricsFacts.

Variable word_tokenize : string -> list string.
Variable float : Type.
Variable float_one : float.
Variable float_of_int : Z -> float.
Variable fmul : float -> float -> float.
Variable fadd : float -> float -> float.
Variable fdiv : float -> float -> float.
Variable fis_zero : float -> bool.

Local Abbreviation tokens := (fun s => word_tokenize (PyStr.lower s)).
Local Abbreviation num_same := (Metrics.num_same word_tokenize).
Local Abbreviation calculate_f1_score :=
  (Metrics.calculate_f1_score word_tokenize float float_one float_of_int
     fmul fadd fdiv fis_zero).
Local Abbreviation div_by_float := (Metrics.div_by_float float fdiv fis_zero).

Lemma num_same_sum (prediction ground_truth : string) :
  num_same prediction ground_truth
  = sum_list_with
      (fun k => Nat.min (count_occ string_dec (tokens prediction) k)
                        (count_occ string_dec (tokens ground_truth) k))
      (map fst (Metrics.count_elements (tokens prediction))).
Proof. unfold Metrics.num_same. apply common_sum. Qed.

Lemma num_same_sym (prediction ground_truth : string) :
  num_same prediction ground_truth = num_same ground_truth prediction.
Proof. rewrite !num_same_sum. apply common_sum_sym. Qed.

Lemma num_same_le_prediction (prediction ground_truth : string) :
  num_same prediction ground_truth <= length (tokens prediction).
Proof.
  rewrite num_same_sum. rewrite <- (sum_keys_counts (tokens prediction)).
  apply sum_le. intros k. lia.
Qed.

Lemma num_same_le_ground_truth (prediction ground_truth : string) :
  num_same prediction ground_truth <= length (tokens ground_truth).
Proof. rewrite num_same_sym. apply num_same_le_prediction. Qed.

Lemma num_same_zero (prediction ground_truth : string) :
  num_same prediction ground_truth = 0
  <-> forall t, t ∈ tokens prediction -> t ∉ tokens ground_truth.
Proof.
  rewrite num_same_sum, sum_zero.
  destruct (count_elements_spec (tokens prediction)) as (_ & _ & Hk & _).
  split.
  - intros H t Ht Hg. specialize (H t (proj2 (Hk t) Ht)).
    apply list_elem_of_In, (count_occ_In string_dec) in Ht, Hg. lia.
  - intros H t Ht. apply Hk in Ht. specialize (H t Ht).
    rewrite list_elem_of_In in H.
    apply (count_occ_not_In string_dec) in H. rewrite H. lia.
Qed.

Lemma num_same_pos (prediction ground_truth : string) (t : string) :
  t ∈ tokens prediction -> t ∈ tokens ground_truth ->
  0 < num_same prediction ground_truth.
Proof.
  intros Hp Hg.
  destruct (Nat.eq_dec (num_same prediction ground_truth) 0) as [Hz|]; [|lia].
  exfalso. exact (proj1 (num_same_zero _ _) Hz t Hp Hg).
Qed.

Lemma num_same_permutation (prediction ground_truth : string) :
  tokens prediction ≡ₚ tokens ground_truth ->
  num_same prediction ground_truth = length (tokens prediction).
Proof.
  intros Hperm. rewrite num_same_sum.
  rewrite <- (sum_keys_counts (tokens prediction)).
  apply sum_ext. intros k.
  rewrite (Permutation_count_occ string_dec) in Hperm.
  rewrite (Hperm k). lia.
Qed.

(** X9 (the zero of the F1 score).  [calculate_f1_score] returns the
    integer [0], without any division, exactly when the lower-cased
    prediction and ground truth have no token in common; this covers a
    prediction or a ground truth without tokens. *)
Theorem f1_zero_without_common_token (prediction ground_truth : string) :
  calculate_f1_score prediction ground_truth = Metrics.Returns (Metrics.PyInt 0)
  <-> forall t, t ∈ tokens prediction -> t ∉ tokens ground_truth.
Proof.
  rewrite <- num_same_zero. unfold Metrics.calculate_f1_score.
  destruct (Nat.eqb_spec (num_same prediction ground_truth) 0) as [Hz|Hnz].
  - split; auto.
  - split; [|contradiction]. intros H. exfalso.
    destruct (Metrics.div_by_int _ _ _ _ _); [|discriminate].
    destruct (Metrics.div_by_int _ _ _ _ _); [|discriminate].
    destruct (Metrics.div_by_float _ _ _ _ _); discriminate.
Qed.

(** X10 (no division by zero in precision and recall).  When prediction and
    ground truth share a token, [num_same] is positive and at most the
    number of tokens of either, so both token lists are non-empty and the
    divisions that give precision and recall do not raise; the only
    division that can raise is the last one, when precision + recall is
    zero as a float. *)
Theorem f1_precision_recall_defined
    (prediction ground_truth : string) (t : string) :
  t ∈ tokens prediction -> t ∈ tokens ground_truth ->
  0 < num_same prediction ground_truth
  /\ num_same prediction ground_truth <= length (tokens prediction)
  /\ num_same prediction ground_truth <= length (tokens ground_truth)
  /\ calculate_f1_score prediction ground_truth
     = let n := float_of_int (Z.of_nat (num_same prediction ground_truth)) in
       let precision :=
         fdiv (fmul float_one n)
              (float_of_int (Z.of_nat (length (tokens prediction)))) in
       let recall :=
         fdiv (fmul float_one n)
              (float_of_int (Z.of_nat (length (tokens ground_truth)))) in
       match div_by_float (fmul (fmul (float_of_int 2) precision) recall)
                          (fadd precision recall) with
       | Metrics.ZeroDivisionError => Metrics.ZeroDivisionError
       | Metrics.Returns f1 => Metrics.Returns (Metrics.PyFloat f1)
       end.
Proof.
  intros Hp Hg.
  pose proof (num_same_pos _ _ t Hp Hg) as Hpos.
  pose proof (num_same_le_prediction prediction ground_truth) as Hlp.
  pose proof (num_same_le_ground_truth prediction ground_truth) as Hlg.
  split_and!; auto.
  unfold Metrics.calculate_f1_score, Metrics.div_by_int.
  destruct (Nat.eqb_spec (num_same prediction ground_truth) 0); [lia|].
  destruct (Nat.eqb_spec (length (tokens prediction)) 0); [lia|].
  destruct (Nat.eqb_spec (length (tokens ground_truth)) 0); [lia|].
  reflexivity.
Qed.

(** X11 (the overlap count).  [num_same] does not depend on which of the two
    strings is the prediction, and when the two token lists are
    rearrangements of one another it is their length, so that precision and
    recall are both a number divided by itself. *)
Theorem f1_overlap_count (prediction ground_truth : string) :
  num_same prediction ground_truth = num_same ground_truth prediction
  /\ (tokens prediction ≡ₚ tokens ground_truth ->
      num_same prediction ground_truth = length (tokens prediction)
      /\ num_same prediction ground_truth = length (tokens ground_truth)).
Proof.
  split; [apply num_same_sym|]. intros Hperm.
  split; [now apply num_same_permutation|].
  rewrite num_same_sym. apply num_same_permutation. now symmetry.
Qed.

Variable SpacyToken : Type.
Variable dep_ : SpacyToken -> string.
Variable nlp : string -> list SpacyToken.

Local Abbreviation count_grammatical_errors :=
  (Metrics.count_grammatical_errors SpacyToken dep_ nlp).

(** X12 (the grammar estimate).  [count_grammatical_errors] is the number of
    [ROOT] tokens minus one: it is at least -1 and below the number of
    tokens, and it is -1, a negative count, exactly when no token is a
    [ROOT], as for a text without tokens. *)
Theorem grammatical_errors_range (text : string) :
  (-1 <= count_grammatical_errors text < Z.of_nat (length (nlp text)))%Z
  /\ (count_grammatical_errors text = (-1)%Z
      <-> Forall (fun token => dep_ token <> "ROOT") (nlp text))
  /\ (nlp text = [] -> count_grammatical_errors text = (-1)%Z).
Proof.
  unfold Metrics.count_grammatical_errors.
  rewrite (filter_bool_prop _ (fun token => dep_ token = "ROOT")).
  2:{ intros token. apply String.eqb_eq. }
  pose proof (length_filter (fun token => dep_ token = "ROOT") (nlp text)) as Hle.
  assert (Hnil : length (filter (fun token => dep_ token = "ROOT") (nlp text)) = 0
                 <-> Forall (fun token => dep_ token <> "ROOT") (nlp text)).
  { rewrite length_zero_iff_nil. apply filter_nil_Forall. }
  split; [lia|]. split.
  - rewrite <- Hnil. lia.
  - intros Hdoc. rewrite Hdoc. reflexivity.
Qed.

End MetricsFacts.

Lemma f1_precision_recall_defined_witness :
  "dog" ∈ split_spaces "" (PyStr.lower "the dog")
  /\ "dog" ∈ split_spaces "" (PyStr.lower "A Dog")
  /\ 0 < Metrics.num_same (split_spaces "") "the dog" "A Dog"
  /\ Metrics.num_same (split_spaces "") "the dog" "A Dog"
     <= length (split_spaces "" (PyStr.lower "the dog"))
  /\ Metrics.num_same (split_spaces "") "the dog" "A Dog"
     <= length (split_spaces "" (PyStr.lower "A Dog")).
Proof.
  assert (Hp : "dog" ∈ split_spaces "" (PyStr.lower "the dog")).
  { vm_compute. repeat constructor. }
  assert (Hg : "dog" ∈ split_spaces "" (PyStr.lower "A Dog")).
  { vm_compute. repeat constructor. }
  pose proof (f1_precision_recall_defined (split_spaces "") Z 1%Z (fun z => z)
                Z.mul Z.add Z.div (Z.eqb 0) "the dog" "A Dog" "dog" Hp Hg)
    as (H1 & H2 & H3 & _).
  split_and!; assumption.
Defined.

Lemma f1_overlap_count_witness :
  split_spaces "" (PyStr.lower "New York City")
  ≡ₚ split_spaces "" (PyStr.lower "city new york")
  /\ Metrics.num_same (split_spaces "") "New York City" "city new york"
     = length (split_spaces "" (PyStr.lower "New York City")).
Proof.
  assert (Hperm : split_spaces "" (PyStr.lower "New York City")
                  ≡ₚ split_spaces "" (PyStr.lower "city new york")).
  { vm_compute. apply NoDup_Permutation.
    - repeat constructor; intros H; repeat (apply elem_of_cons in H as [H|H];
        [discriminate|]); inversion H.
    - repeat constructor; intros H; repeat (apply elem_of_cons in H as [H|H];
        [discriminate|]); inversion H.
    - intros x. rewrite !elem_of_cons. split; intros H; tauto. }
  split; [exact Hperm|].
  exact (proj1 (proj2 (f1_overlap_count (split_spaces "") _ _) Hperm)).
Defined.

(** ** Rows of the evaluation, and the loop over the attack files *)

Section Rows.

Variable float : Type.
Variable get_answer : string -> string -> string.
Variable calculate_f1_score : string -> string -> float.
Variable calculate_bleu_score : string -> string -> float.
Variable count_grammatical_errors : string -> Z.

Local Abbreviation evaluate_attack :=
  (Evaluate.evaluate_attack float get_answer calculate_f1_score
     calculate_bleu_score count_grammatical_errors).
Local Abbreviation evaluate_files :=
  (Driver.evaluate_files float get_answer calculate_f1_score
     calculate_bleu_score count_grammatical_errors).
Local Abbreviation row :=
  (spec_row float get_answer calculate_f1_score calculate_bleu_score
     count_grammatical_errors).

Lemma evaluate_attack_rows (data : list JArticle) (attack_name : string) :
  evaluate_attack data attack_name
  = map (row attack_name) (List.filter scoredb (qa_instances data)).
Proof.
  unfold Evaluate.evaluate_attack.
  now rewrite (eval_articles_rows float get_answer calculate_f1_score
                 calculate_bleu_score count_grammatical_errors).
Qed.

Lemma substring_length (n : nat) (s : string) :
  String.length (String.substring 0 n s) <= n.
Proof.
  revert n; induction s as [|c s IH]; intros [|n]; simpl; try lia.
  specialize (IH n). lia.
Qed.

Lemma qa_instances_in (data : list JArticle) (ctx : string) (qa : QAPair) :
  In (ctx, qa) (qa_instances data)
  <-> exists a p, In a data /\ In p (paragraphs a) /\ In qa (qas p)
                  /\ ctx = context p.
Proof.
  unfold qa_instances. rewrite in_flat_map. split.
  - intros (a & Ha & Hin). apply in_flat_map in Hin as (p & Hp & Hin).
    apply in_map_iff in Hin as (qa0 & [= <- <-] & Hqa). eauto 10.
  - intros (a & p & Ha & Hp & Hqa & ->). exists a. split; [exact Ha|].
    apply in_flat_map. exists p. split; [exact Hp|].
    apply in_map_iff. eauto.
Qed.

(** X13 (what a row holds).  Every row returned by [evaluate_attack] carries
    the attack name it was called with; it comes from a question of the
    corpus that has answers; its stored context is the first 512
    characters of that question's context, while the prediction was made on
    the whole context; and its ground truth occurs in the stored context. *)
Theorem evaluation_row_contents
    (data : list JArticle) (attack_name : string) (r : Evaluate.Row float) :
  In r (evaluate_attack data attack_name) ->
  Evaluate.row_attack float r = attack_name
  /\ String.length (Evaluate.row_context float r) <= 512
  /\ occurs_in (Evaluate.row_ground_truth float r) (Evaluate.row_context float r)
  /\ exists a p qa a0 others,
       In a data /\ In p (paragraphs a) /\ In qa (qas p)
       /\ answers qa = a0 :: others
       /\ Evaluate.row_question float r = question qa
       /\ Evaluate.row_ground_truth float r = text a0
       /\ Evaluate.row_context float r = String.substring 0 512 (context p)
       /\ Evaluate.row_predicted_answer float r
          = get_answer (question qa) (context p).
Proof.
  rewrite evaluate_attack_rows. intros Hr.
  apply in_map_iff in Hr as ([ctx qa] & <- & Hin).
  apply filter_In in Hin as [Hin Hsc].
  apply scoredb_scored in Hsc as (a0 & others & Hans & Hocc).
  apply qa_instances_in in Hin as (a & p & Ha & Hp & Hqa & ->).
  simpl in *. unfold spec_row. simpl. rewrite Hans. split_and!.
  - reflexivity.
  - apply substring_length.
  - exact Hocc.
  - exists a, p, qa, a0, others. split_and!; auto.
Qed.

Lemma qa_instances_app (d1 d2 : list JArticle) :
  qa_instances (d1 ++ d2) = qa_instances d1 ++ qa_instances d2.
Proof. unfold qa_instances. apply flat_map_app. Qed.

(** X14 (rows add up).  Evaluating the articles of two corpora one after the
    other gives the rows of the first followed by the rows of the second,
    and there are never more rows than questions. *)
Theorem evaluation_rows_add_up
    (data1 data2 : list JArticle) (attack_name : string) :
  evaluate_attack (data1 ++ data2) attack_name
  = evaluate_attack data1 attack_name ++ evaluate_attack data2 attack_name
  /\ length (evaluate_attack data1 attack_name)
     <= length (qa_instances data1).
Proof.
  rewrite !evaluate_attack_rows. split.
  - now rewrite qa_instances_app, List.filter_app, map_app.
  - rewrite length_map. apply List.filter_length_le.
Qed.

Lemma row_attack_filter (data : list JArticle) (attack_name n : string) :
  List.filter (fun r => String.eqb (Evaluate.row_attack float r) n)
              (evaluate_attack data attack_name)
  = if String.eqb attack_name n then evaluate_attack data attack_name else [].
Proof.
  rewrite evaluate_attack_rows.
  induction (List.filter scoredb (qa_instances data)) as [|inst insts IH].
  - now destruct (String.eqb attack_name n).
  - simpl. rewrite IH. now destruct (String.eqb attack_name n).
Qed.

Lemma evaluate_files_from (files : list (list JArticle * string))
    (acc : list (Evaluate.Row float)) :
  fold_left
    (fun all_results file =>
       all_results ++ evaluate_attack (fst file) (snd file))
    files acc
  = acc ++ flat_map (fun file => evaluate_attack (fst file) (snd file)) files.
Proof.
  revert acc; induction files as [|f files IH]; intros acc; simpl.
  - now rewrite app_nil_r.
  - now rewrite IH, app_assoc.
Qed.

(** X15 (rows per attack).  In the table built by the loop over the attack
    files, the rows that carry a given attack name are the rows of the files
    evaluated under that name, in the order of the loop; their number, the
    sample size of that attack, is the number of questions of those files
    that have answers with the first answer text in the first 512
    characters of the context. *)
Theorem rows_per_attack
    (attack_files : list (list JArticle * string)) (n : string) :
  List.filter (fun r => String.eqb (Evaluate.row_attack float r) n)
              (evaluate_files attack_files)
  = flat_map (fun file =>
                if String.eqb (snd file) n
                then evaluate_attack (fst file) n else [])
             attack_files
  /\ length (List.filter (fun r => String.eqb (Evaluate.row_attack float r) n)
                         (evaluate_files attack_files))
     = sum_list_with
         (fun file =>
            if String.eqb (snd file) n
            then length (List.filter scoredb (qa_instances (fst file)))
            else 0)
         attack_files.
Proof.
  assert (Hrows :
    List.filter (fun r => String.eqb (Evaluate.row_attack float r) n)
                (evaluate_files attack_files)
    = flat_map (fun file =>
                  if String.eqb (snd file) n
                  then evaluate_attack (fst file) n else [])
               attack_files).
  { unfold Driver.evaluate_files. rewrite evaluate_files_from. simpl.
    induction attack_files as [|[d m] files IH]; [reflexivity|].
    simpl. rewrite List.filter_app, IH, row_attack_filter.
    destruct (String.eqb_spec m n) as [->|_]; reflexivity. }
  split; [exact Hrows|]. rewrite Hrows. clear Hrows.
  induction attack_files as [|[d m] files IH]; [reflexivity|].
  simpl. rewrite length_app, IH.
  destruct (String.eqb m n); [|reflexivity].
  now rewrite evaluate_attack_rows, length_map.
Qed.

End Rows.

Lemma evaluation_row_contents_witness :
  In (Evaluate.mkRow Z "AddSent" "What color is the sky?" "The sky is blue."
        "blue" "Blue" true 1%Z 0%Z 0%Z)
     (Evaluate.evaluate_attack Z (fun _ _ => "Blue") (fun _ _ => 1%Z)
        (fun _ _ => 0%Z) (fun _ => 0%Z) (data sky) "AddSent")
  /\ Evaluate.row_attack Z
       (Evaluate.mkRow Z "AddSent" "What color is the sky?" "The sky is blue."
          "blue" "Blue" true 1%Z 0%Z 0%Z) = "AddSent"
  /\ String.length
       (Evaluate.row_context Z
          (Evaluate.mkRow Z "AddSent" "What color is the sky?"
             "The sky is blue." "blue" "Blue" true 1%Z 0%Z 0%Z)) <= 512
  /\ occurs_in
       (Evaluate.row_ground_truth Z
          (Evaluate.mkRow Z "AddSent" "What color is the sky?"
             "The sky is blue." "blue" "Blue" true 1%Z 0%Z 0%Z))
       (Evaluate.row_context Z
          (Evaluate.mkRow Z "AddSent" "What color is the sky?"
             "The sky is blue." "blue" "Blue" true 1%Z 0%Z 0%Z)).
Proof.
  assert (Hin : In (Evaluate.mkRow Z "AddSent" "What color is the sky?"
                      "The sky is blue." "blue" "Blue" true 1%Z 0%Z 0%Z)
                   (Evaluate.evaluate_attack Z (fun _ _ => "Blue")
                      (fun _ _ => 1%Z) (fun _ _ => 0%Z) (fun _ => 0%Z)
                      (data sky) "AddSent")).
  { vm_compute. left. reflexivity. }
  pose proof (evaluation_row_contents Z (fun _ _ => "Blue") (fun _ _ => 1%Z)
                (fun _ _ => 0%Z) (fun _ => 0%Z) (data sky) "AddSent" _ Hin)
    as (H1 & H2 & H3 & _).
  split_and!; assumption.
Defined.

(** ** From a generator to the evaluation *)

Section GenerateThenEvaluate.

Lemma substring_app_prefix (n : nat) (s t : string) :
  exists u, String.substring 0 n (s +:+ t) = String.substring 0 n s +:+ u.
Proof.
  revert n; induction s as [|c s IH]; intros n.
  - exists (String.substring 0 n t). rewrite app_nil_str.
    now destruct n.
  - rewrite app_cons. destruct n as [|n]; simpl.
    + now exists "".
    + destruct (IH n) as [u ->]. now exists u.
Qed.

Lemma occurs_in_app (sub s t : string) :
  occurs_in sub s -> occurs_in sub (s +:+ t).
Proof. intros [i Hi]. exists i. now apply occurs_at_app. Qed.

Lemma relocated_scored (p p' : JParagraph) (suffix : string)
    (qa qa' : QAPair) :
  context p' = context p +:+ suffix ->
  relocated (context p') qa qa' ->
  scoredb (context p, qa) = true -> scoredb (context p', qa') = true.
Proof.
  intros Hctx [(_ & _ & _ & Htext & _) _].
  rewrite !scoredb_scored. intros (a0 & others & Hans & Hocc). simpl in *.
  rewrite Hans in Htext.
  destruct (answers qa') as [|a0' others'] eqn:Hans'; [discriminate|].
  injection Htext as Ht _. exists a0', others'. split; [exact Hans'|].
  simpl. rewrite Hctx, Ht.
  destruct (substring_app_prefix 512 (context p) suffix) as [u ->].
  now apply occurs_in_app.
Qed.

Lemma Forall2_flat_map {A B C D} (R : C -> D -> Prop)
    (f : A -> list C) (g : B -> list D) (xs : list A) (ys : list B) :
  Forall2 (fun x y => Forall2 R (f x) (g y)) xs ys ->
  Forall2 R (flat_map f xs) (flat_map g ys).
Proof.
  induction 1 as [|x y xs ys Hxy _ IH]; simpl; [constructor|].
  now apply Forall2_app.
Qed.

Lemma Forall2_map_both {A B C D} (R : C -> D -> Prop)
    (f : A -> C) (g : B -> D) (xs : list A) (ys : list B) :
  Forall2 (fun x y => R (f x) (g y)) xs ys ->
  Forall2 R (map f xs) (map g ys).
Proof. induction 1; simpl; constructor; auto. Qed.

Lemma perturbed_instances (S : JParagraph -> string -> Prop) (c c' : JCorpus) :
  paragraphwise (perturbed S) c c' ->
  Forall2 (fun i i' => scoredb i = true -> scoredb i' = true)
          (qa_instances (data c)) (qa_instances (data c')).
Proof.
  intros Hpw. unfold qa_instances.
  apply Forall2_flat_map. eapply Forall2_weaken; [exact Hpw|].
  intros a a' Ha. simpl in Ha.
  apply Forall2_flat_map. eapply Forall2_weaken; [exact Ha|].
  intros p p' [(suffix & _ & Hctx) Hq].
  apply Forall2_map_both. eapply Forall2_weaken; [exact Hq|].
  intros qa qa' Hrel. eapply (relocated_scored p p' (" " +:+ suffix)); eauto.
Qed.

Lemma filter_length_mono {A B} (f : A -> bool) (g : B -> bool)
    (xs : list A) (ys : list B) :
  Forall2 (fun x y => f x = true -> g y = true) xs ys ->
  length (List.filter f xs) <= length (List.filter g ys).
Proof.
  induction 1 as [|x y xs ys Hxy _ IH]; simpl; [lia|].
  destruct (f x); [rewrite Hxy by reflexivity|destruct (g y)]; simpl; lia.
Qed.

End GenerateThenEvaluate.

(** X16 (appending loses no evaluation example).  A question that the
    evaluation scores on the input corpus is also scored on the corpus
    written by a completed run of either generator: the first 512
    characters of the new context begin with those of the old one.  So the
    evaluation of the generated corpus has at least as many rows as the
    evaluation of the input. *)
Theorem generated_corpus_keeps_rows
    (float : Type) (get_answer : string -> string -> string)
    (calculate_f1_score calculate_bleu_score : string -> string -> float)
    (count_grammatical_errors : string -> Z)
    (nlp : string -> list AddSent.Token) (input : JCorpus) (num : nat)
    (seed : list nat) (out : JCorpus) (name name' : string) :
  AddAny.process_squad_file input num seed = Ok out
  \/ AddSent.process_squad_file nlp input seed = Ok out ->
  Forall2 (fun i i' => scoredb i = true -> scoredb i' = true)
          (qa_instances (data input)) (qa_instances (data out))
  /\ length (Evaluate.evaluate_attack float get_answer calculate_f1_score
               calculate_bleu_score count_grammatical_errors
               (data input) name)
     <= length (Evaluate.evaluate_attack float get_answer calculate_f1_score
                  calculate_bleu_score count_grammatical_errors
                  (data out) name').
Proof.
  intros Hrun.
  assert (Hinst : Forall2 (fun i i' => scoredb i = true -> scoredb i' = true)
                          (qa_instances (data input)) (qa_instances (data out))).
  { destruct Hrun as [Hrun|Hrun].
    - rewrite AddAny_agrees in Hrun.
      apply AddAny_corpus_perturbed in Hrun as [_ Hpw].
      eapply perturbed_instances; eauto.
    - rewrite AddSent_agrees in Hrun.
      apply AddSent_corpus_perturbed in Hrun as [_ Hpw].
      eapply perturbed_instances; eauto. }
  split; [exact Hinst|].
  rewrite !evaluate_attack_rows, !length_map.
  now apply filter_length_mono.
Qed.

Lemma generated_corpus_keeps_rows_witness :
  (AddAny.process_squad_file this_is 0 [0; 0] = Ok this_is_addsent
   \/ AddSent.process_squad_file table_nlp this_is [0; 0] = Ok this_is_addsent)
  /\ Forall2 (fun i i' => scoredb i = true -> scoredb i' = true)
             (qa_instances (data this_is)) (qa_instances (data this_is_addsent))
  /\ length (Evaluate.evaluate_attack Z (fun _ _ => "is") (fun _ _ => 1%Z)
               (fun _ _ => 0%Z) (fun _ => 0%Z) (data this_is) "Baseline")
     <= length (Evaluate.evaluate_attack Z (fun _ _ => "is") (fun _ _ => 1%Z)
                  (fun _ _ => 0%Z) (fun _ => 0%Z) (data this_is_addsent)
                  "AddSent").
Proof.
  assert (Hrun : AddAny.process_squad_file this_is 0 [0; 0] = Ok this_is_addsent
                 \/ AddSent.process_squad_file table_nlp this_is [0; 0]
                    = Ok this_is_addsent).
  { right. vm_compute. reflexivity. }
  split; [exact Hrun|].
  exact (generated_corpus_keeps_rows Z (fun _ _ => "is") (fun _ _ => 1%Z)
           (fun _ _ => 0%Z) (fun _ => 0%Z) table_nlp this_is 0 [0; 0]
           this_is_addsent "Baseline" "AddSent" Hrun).
Defined.

(** ** Answers that are not in the original passage *)

Section Suffix.

Lemma occurs_at_app_inv (sub s t : string) (i : nat) :
  occurs_at sub (s +:+ t) i ->
  i + String.length sub <= String.length s ->
  occurs_at sub s i.
Proof.
  revert i; induction s as [|c s IH]; intros i Hocc Hlen.
  - simpl in Hlen. assert (i = 0) as -> by lia.
    apply startswith_occurs in Hocc. apply startswith_occurs.
    unfold PyStr.startswith in *.
    now rewrite prefix_app_long in Hocc by (simpl; lia).
  - destruct i as [|i].
    + apply startswith_occurs in Hocc. apply startswith_occurs.
      unfold PyStr.startswith in *.
      now rewrite prefix_app_long in Hocc by (simpl in *; lia).
    + rewrite app_cons in Hocc. apply occurs_at_cons in Hocc.
      apply occurs_at_cons. apply IH; [exact Hocc | simpl in Hlen; lia].
Qed.

Lemma relocated_in_suffix (p : JParagraph) (suffix : string) (qa qa' : QAPair) :
  relocated (context p +:+ suffix) qa qa' ->
  match answers qa, answers qa' with
  | a0 :: _, a0' :: _ =>
      ~ occurs_in (text a0) (context p) ->
      (Z.of_nat (String.length (context p))
       < answer_start a0' + Z.of_nat (String.length (text a0')))%Z
  | _, _ => True
  end.
Proof.
  intros [(_ & _ & _ & Htext & _) Hloc].
  destruct (answers qa) as [|a0 others], (answers qa') as [|a0' others'];
    try exact I.
  injection Htext as Ht _. intros Hnot.
  destruct Hloc as (i & -> & [Hocc _]).
  destruct (Nat.le_gt_cases (i + String.length (text a0'))
                            (String.length (context p))) as [Hle|Hgt]; [|lia].
  exfalso. apply Hnot. exists i. rewrite <- Ht.
  eapply occurs_at_app_inv; eauto.
Qed.

Lemma perturbed_located_in_suffix (S : JParagraph -> string -> Prop)
    (p p' : JParagraph) :
  perturbed S p p' -> located_in_suffix p p'.
Proof.
  intros [(suffix & _ & Hctx) Hq]. rewrite Hctx in Hq.
  eapply Forall2_weaken; [exact Hq|]. intros qa qa'.
  apply (relocated_in_suffix p (" " +:+ suffix)).
Qed.

Variable nlp : string -> list AddSent.Token.

Lemma sentence_holds_answer (p : JParagraph) (qa : QAPair) (w : string) :
  match answers qa with
  | [] => True
  | a0 :: _ =>
      occurs_in (text a0)
                (Pure.AddSent.adv_context p (Pure.AddSent.sentence_of qa w))
  end.
Proof.
  destruct (answers qa) as [|a0 others] eqn:Hans; [exact I|].
  unfold Pure.AddSent.adv_context, Pure.AddSent.sentence_of,
    Pure.AddSent.first_text. rewrite Hans.
  destruct (text a0) as [|c t] eqn:Ht; [apply occurs_in_empty|].
  cbn [AddSent.nonempty].
  exists (String.length
            ((((context p +:+ " ") +:+ "However, ") +:+ w)
             +:+ " is not related to ")),
         ((((context p +:+ " ") +:+ "However, ") +:+ w) +:+ " is not related to "),
         ".".
  split; [|reflexivity]. now rewrite !app_assoc_str.
Qed.

Lemma AddSent_single_paragraph_total (p : JParagraph) (g : list nat) :
  (exists qa, qas p = [qa] /\ AddSent.key_words nlp (question qa) <> []) ->
  exists p' g', Pure.AddSent.paragraph nlp p g = Ok (p', g').
Proof.
  intros (qa & Hq & Hkw). unfold Pure.AddSent.paragraph, bind.
  unfold Pure.AddSent.sentence, bind. rewrite Hq.
  destruct (random_choice_total [qa] g) as (qa0 & g1 & Hqa); [discriminate|].
  rewrite Hqa. apply random_choice_in, list_elem_of_singleton in Hqa as ->.
  destruct (random_choice_total _ g1 Hkw) as (w & g2 & ->).
  cbv beta iota. unfold ret at 1. cbv beta iota.
  destruct (relocate_all_total
              (Pure.AddSent.adv_context p (Pure.AddSent.sentence_of qa w))
              [qa] g2) as (qs & ->); [|eauto].
  constructor; [|constructor]. apply sentence_holds_answer.
Qed.

Lemma AddSent_single_corpus_total (c : JCorpus) (g : list nat) :
  single_question_ready nlp c ->
  exists c', Pure.run (Pure.AddSent.corpus nlp c) g = Ok c'.
Proof.
  intros Hready. unfold Pure.run, Pure.AddSent.corpus, bind.
  destruct (map_rand_total (Pure.AddSent.article nlp) (data c)) with (g := g)
    as (arts & g1 & ->); [|eauto].
  intros a Ha g2. unfold single_question_ready in Hready.
  rewrite Forall_forall in Hready. specialize (Hready a Ha).
  unfold Pure.AddSent.article, bind.
  destruct (map_rand_total (Pure.AddSent.paragraph nlp) (paragraphs a))
    with (g := g2) as (ps & g3 & ->); [|eauto].
  intros p Hp g4. rewrite Forall_forall in Hready.
  now apply AddSent_single_paragraph_total, Hready.
Qed.

End Suffix.

(** X17 (answers that are not in the original passage).  In a completed run
    of either generator, a first answer text that does not occur in the
    original context was found thanks to the appended text: the span
    written for it reaches beyond the end of the original context. *)
Theorem absent_answer_lands_in_suffix
    (nlp : string -> list AddSent.Token) (input : JCorpus) (num : nat)
    (seed : list nat) (out : JCorpus) :
  AddAny.process_squad_file input num seed = Ok out
  \/ AddSent.process_squad_file nlp input seed = Ok out ->
  paragraphwise located_in_suffix input out.
Proof.
  intros [Hrun|Hrun].
  - rewrite AddAny_agrees in Hrun.
    apply AddAny_corpus_perturbed in Hrun as [_ Hpw].
    eapply paragraphwise_weaken; [exact Hpw|].
    apply perturbed_located_in_suffix.
  - rewrite AddSent_agrees in Hrun.
    apply AddSent_corpus_perturbed in Hrun as [_ Hpw].
    eapply paragraphwise_weaken; [exact Hpw|].
    apply perturbed_located_in_suffix.
Qed.

Lemma absent_answer_lands_in_suffix_witness :
  (AddAny.process_squad_file
     (mkCorpus "v2.0"
        [ mkArticle "Sky"
            [ mkParagraph "The sky is blue."
                [ mkQA "What color is the sky?" None None
                       [ mkAnswer "green" 0 ] ] ] ])
     0 [0; 0]
   = Ok (mkCorpus "v2.0"
           [ mkArticle "Sky"
               [ mkParagraph
                   "The sky is blue. However, color is not related to green."
                   [ mkQA "What color is the sky?" None None
                          [ mkAnswer "green" 50 ] ] ] ])
   \/ AddSent.process_squad_file table_nlp
        (mkCorpus "v2.0"
           [ mkArticle "Sky"
               [ mkParagraph "The sky is blue."
                   [ mkQA "What color is the sky?" None None
                          [ mkAnswer "green" 0 ] ] ] ])
        [0; 0]
      = Ok (mkCorpus "v2.0"
              [ mkArticle "Sky"
                  [ mkParagraph
                      "The sky is blue. However, color is not related to green."
                      [ mkQA "What color is the sky?" None None
                             [ mkAnswer "green" 50 ] ] ] ]))
  /\ paragraphwise located_in_suffix
       (mkCorpus "v2.0"
          [ mkArticle "Sky"
              [ mkParagraph "The sky is blue."
                  [ mkQA "What color is the sky?" None None
                         [ mkAnswer "green" 0 ] ] ] ])
       (mkCorpus "v2.0"
          [ mkArticle "Sky"
              [ mkParagraph
                  "The sky is blue. However, color is not related to green."
                  [ mkQA "What color is the sky?" None None
                         [ mkAnswer "green" 50 ] ] ] ]).
Proof.
  match goal with |- ?H /\ _ => assert (Hrun : H) end.
  { right. vm_compute. reflexivity. }
  split; [exact Hrun|].
  exact (absent_answer_lands_in_suffix table_nlp _ 0 [0; 0] _ Hrun).
Defined.

(** X18 (AddSent repeats the answer of its question).  The sentence AddSent
    appends ends with the first answer text of the question it was built
    from, so that text is always found.  In particular, on a corpus in which
    every paragraph has exactly one question, with a key word, AddSent
    completes whether or not the answers occur in their contexts. *)
Theorem addsent_single_question_completes
    (nlp : string -> list AddSent.Token) (input : JCorpus) (seed : list nat) :
  single_question_ready nlp input ->
  exists out, AddSent.process_squad_file nlp input seed = Ok out.
Proof.
  intros Hready. rewrite AddSent_agrees.
  now apply AddSent_single_corpus_total.
Qed.

Lemma addsent_single_question_completes_witness :
  single_question_ready table_nlp
    (mkCorpus "v2.0"
       [ mkArticle "Sky"
           [ mkParagraph "The sky is blue."
               [ mkQA "What color is the sky?" None None
                      [ mkAnswer "green" 0 ] ] ] ])
  /\ exists out,
       AddSent.process_squad_file table_nlp
         (mkCorpus "v2.0"
            [ mkArticle "Sky"
                [ mkParagraph "The sky is blue."
                    [ mkQA "What color is the sky?" None None
                           [ mkAnswer "green" 0 ] ] ] ])
         [0; 0]
       = Ok out.
Proof.
  match goal with |- ?H /\ _ => assert (Hready : H) end.
  { repeat constructor. eexists. split; [reflexivity | discriminate]. }
  split; [exact Hready|].
  exact (addsent_single_question_completes table_nlp _ [0; 0] Hready).
Defined.
